(** * Story-Teller-MVP: the sanitize-and-forward request pipeline

    A shallow embedding of the request handlers of the repository
    (api/generate.js, api/generate-voice.js, the extract-and-process and
    process-text functions, and the two Express servers) together with the
    text sanitizer they share, and the properties of the specification
    stated over that embedding.

    JavaScript strings are sequences of UTF-16 code units; they are modelled
    as lists of code-unit values.  The regular expressions of the source are
    kept as data and run by a small backtracking matcher, so that each
    [String.prototype.replace] call of the source has a counterpart here. *)

From Stdlib Require Import List NArith ZArith Bool Lia Arith.
From Stdlib Require Import Strings.String Strings.Ascii.
Import ListNotations.

(** ** JavaScript strings *)

Abbreviation code_unit := N (only parsing).
Abbreviation jsstring := (list N) (only parsing).

(** A literal of the source, as code units. *)
Definition str (s : string) : jsstring :=
  List.map N_of_ascii (list_ascii_of_string s).

Definition jseqb (a b : jsstring) : bool :=
  if list_eq_dec N.eq_dec a b then true else false.

Local Open Scope N_scope.

(** Code units used below. *)
Definition TAB : N := 9.
Definition LF : N := 10.
Definition CR : N := 13.
Definition SP : N := 32.
Definition DQUOTE : N := 34.
Definition SQUOTE : N := 39.
Definition LT : N := 60.
Definition EQUALS : N := 61.
Definition GT : N := 62.
Definition BACKTICK : N := 96.

(** ** Character classes of the regular expressions *)

(** [\s]: the WhiteSpace and LineTerminator code points of ECMAScript. *)
Definition is_space (c : N) : bool :=
  (c =? 9) || (c =? 10) || (c =? 11) || (c =? 12) || (c =? 13) || (c =? 32)
  || (c =? 160) || (c =? 5760) || ((8192 <=? c) && (c <=? 8202))
  || (c =? 8232) || (c =? 8233) || (c =? 8239) || (c =? 8287)
  || (c =? 12288) || (c =? 65279).

(** [\w]: ASCII letters, digits and underscore.  Under the [i] flag without
    the [u] flag a code unit of value 128 or more never canonicalizes to an
    ASCII one, so the class is unchanged by case folding. *)
Definition is_word (c : N) : bool :=
  ((48 <=? c) && (c <=? 57)) || ((65 <=? c) && (c <=? 90))
  || (c =? 95) || ((97 <=? c) && (c <=? 122)).

(** The class of the first replace: less-than, greater-than, double quote,
    single quote and backtick. *)
Definition is_markup (c : N) : bool :=
  (c =? LT) || (c =? GT) || (c =? DQUOTE) || (c =? SQUOTE) || (c =? BACKTICK).

(** The class of carriage return and line feed. *)
Definition is_linebreak (c : N) : bool := (c =? CR) || (c =? LF).

(** Canonicalize of ECMAScript for an ASCII code unit: upper case. *)
Definition upper (c : N) : N :=
  if (97 <=? c) && (c <=? 122) then c - 32 else c.

(** A literal ASCII character [l] of a pattern with the [i] flag matches the
    code units whose canonical form is that of [l]; code units from 128 on
    keep a canonical form of 128 or more and never match. *)
Definition ci (l : N) (c : N) : bool := (c <? 128) && (upper c =? upper l).

(** ** Regular expressions *)

(** The patterns of the source are sequences of single-character atoms and
    greedy repetitions of a character class. *)
Inductive atom :=
| One (p : N -> bool)
| Star (p : N -> bool).

Definition regex := list atom.

(** [p+] is [p p*]. *)
Definition plus (p : N -> bool) : regex := [One p; Star p].

(** A literal under the [i] flag. *)
Definition lit_ci (s : string) : regex := List.map (fun c => One (ci c)) (str s).

(** A literal without the [i] flag. *)
Definition lit (s : string) : regex := List.map (fun c => One (N.eqb c)) (str s).

(** [rmatch r s]: the length of the match of [r] at the start of [s], found
    by backtracking with greedy repetitions, as RegExp.prototype.exec does
    at one position. *)
Fixpoint rmatch (r : regex) (s : jsstring) {struct r} : option nat :=
  match r with
  | [] => Some O
  | One p :: r' =>
      match s with
      | c :: s' => if p c then option_map S (rmatch r' s') else None
      | [] => None
      end
  | Star p :: r' =>
      (fix star (s : jsstring) : option nat :=
         match s with
         | c :: s' =>
             if p c then
               match star s' with
               | Some n => Some (S n)
               | None => rmatch r' s
               end
             else rmatch r' s
         | [] => rmatch r' s
         end) s
  end.

(** [s.replace(/r/g, rep)]: scan from the left; a match is replaced by [rep]
    and the scan resumes after it; an empty match inserts [rep] and moves on
    by one code unit.  [skip] counts the code units of the current match still
    to be dropped. *)
Fixpoint replace_from (r : regex) (rep : jsstring) (skip : nat) (s : jsstring)
  : jsstring :=
  match s with
  | [] =>
      match skip with
      | O => match rmatch r [] with Some _ => rep | None => [] end
      | S _ => []
      end
  | c :: s' =>
      match skip with
      | S k => replace_from r rep k s'
      | O =>
          match rmatch r s with
          | Some (S k) => rep ++ replace_from r rep k s'
          | Some O => rep ++ c :: replace_from r rep O s'
          | None => c :: replace_from r rep O s'
          end
      end
  end.

Definition replace_all (r : regex) (rep : jsstring) (s : jsstring) : jsstring :=
  replace_from r rep O s.

(** [String.prototype.trim] *)
Fixpoint trim_start (s : jsstring) : jsstring :=
  match s with
  | c :: s' => if is_space c then trim_start s' else s
  | [] => []
  end.

Definition trim_end (s : jsstring) : jsstring := rev (trim_start (rev s)).

Definition trim (s : jsstring) : jsstring := trim_end (trim_start s).

(** [s.substring(0, n)] *)
Definition substring0 (n : nat) (s : jsstring) : jsstring := firstn n s.

(** ** JSON values of a request body *)

Inductive jsval :=
| JUndefined
| JNull
| JBool (b : bool)
| JNum (n : Z)
| JStr (s : jsstring)
| JObj.

(** [!v] is false *)
Definition truthy (v : jsval) : bool :=
  match v with
  | JUndefined | JNull => false
  | JBool b => b
  | JNum n => negb (Z.eqb n 0)
  | JStr s => match s with [] => false | _ => true end
  | JObj => true
  end.

(** ** The sanitizer *)

Definition re_markup : regex := [One is_markup].
Definition re_javascript : regex := lit_ci "javascript:".
Definition re_handler : regex :=
  lit_ci "on" ++ plus is_word ++ [Star is_space] ++ lit_ci "=".
Definition re_linebreak : regex := [One is_linebreak].
Definition re_spaces : regex := plus is_space.

Definition MAX_LENGTH : nat := 2000.

Definition typeof_string (v : jsval) : bool :=
  match v with JStr _ => true | _ => false end.

(** The chain of replace, trim and substring calls of sanitizeInput. *)
Definition clean_chain (s : jsstring) : jsstring :=
  substring0 MAX_LENGTH
    (trim
      (replace_all re_spaces [SP]
        (replace_all re_linebreak [SP]
          (replace_all re_handler []
            (replace_all re_javascript []
              (replace_all re_markup [] s)))))).

(** sanitizeInput of api/generate-voice.js, lines 8 to 22 (the same text in
    the process-text and extract-and-process functions and in the server). *)
Definition sanitizeInput (input : jsval) : jsstring :=
  if negb (truthy input) || negb (typeof_string input) then []
  else
    match input with
    | JStr s => clean_chain s
    | _ => []
    end.

Definition sanitize (s : jsstring) : jsstring := sanitizeInput (JStr s).

(** ** Requests, upstream services and responses *)

(** A thrown JavaScript error. *)
Record exn := { message : jsstring; stack : jsstring }.

(** The parsed request: its method, its Origin header and the fields of its
    JSON body (an absent field is [JUndefined]).  The body is taken to be
    an object, as the JSON body parser delivers it. *)
Record request := {
  method : jsstring;
  origin : option jsstring;
  text : jsval;
  image : jsval
}.

(** What is sent to model.generateContent: a text prompt, or the extraction
    prompt together with the inline image part. *)
Inductive gen_input :=
| Prompt (p : jsstring)
| Vision (p : jsstring) (data : jsstring) (mimeType : jsstring).

Inductive call_result :=
| Returns (t : jsstring)
| Raises (e : exn).

(** The stream of the speech service: the chunks of its data events, closed
    by an end event ([None]) or an error event.  A byte stream of the
    runtime never delivers an empty chunk; the type does not enforce it, and
    the theorems that need it say so. *)
Record audio_stream := {
  chunks_of : list (list Byte.byte);
  closing : option exn
}.

Inductive tts_result :=
| TtsRaises (e : exn)
| TtsReturns (s : option audio_stream).

(** The process environment and the two upstream services, as seen by one
    request.  [frames] is the text the runtime appends to the stack of an
    error created in a handler. *)
Record world := {
  FRONTEND_URL : option jsstring;
  NODE_ENV : option jsstring;
  ELEVENLABS_VOICE_ID : option jsstring;
  generateContent : string -> gen_input -> call_result;
  textToSpeech : jsstring -> jsstring -> tts_result;
  frames : jsstring
}.

(** Observable effects of a handler other than the response.  The
    console.log lines of the source are not recorded.  A trace lists the
    most recent event first. *)
Inductive event :=
| Generate (model : string) (input : gen_input)
| Synthesize (voiceId : jsstring) (txt : jsstring)
| ConsoleError (label : string) (e : option exn).

Inductive payload :=
| NoBody
| Json (fields : list (string * jsstring)).

(** The response object and the effects so far.  [sent] is [None] until
    res.json or res.end is called. *)
Record state := {
  status : nat;
  headers : list (string * jsstring);
  sent : option payload;
  trace : list event
}.

Definition initial : state :=
  {| status := 200; headers := []; sent := None; trace := [] |}.

(** ** A monad for handler bodies: state, exceptions and early return *)

Inductive outcome (A : Type) :=
| Value (a : A)
| Thrown (e : exn)
| Returned.

Arguments Value {A} a.
Arguments Thrown {A} e.
Arguments Returned {A}.

Definition M (A : Type) := state -> outcome A * state.

Definition ret {A} (a : A) : M A := fun st => (Value a, st).

Definition bind {A B} (m : M A) (k : A -> M B) : M B :=
  fun st =>
    match m st with
    | (Value a, st') => k a st'
    | (Thrown e, st') => (Thrown e, st')
    | (Returned, st') => (Returned, st')
    end.

Declare Scope handler_scope.
Delimit Scope handler_scope with handler.
Notation "x <- m ;; k" := (bind m (fun x => k))
  (at level 61, m at next level, right associativity) : handler_scope.
Notation "m ;; k" := (bind m (fun _ => k))
  (at level 61, right associativity) : handler_scope.
Local Open Scope handler_scope.

Definition throw {A} (e : exn) : M A := fun st => (Thrown e, st).

(** [return] out of the handler. *)
Definition return_ {A} : M A := fun st => (Returned, st).

(** try { m } catch (e) { h e } *)
Definition try_catch {A} (m : M A) (h : exn -> M A) : M A :=
  fun st =>
    match m st with
    | (Thrown e, st') => h e st'
    | r => r
    end.

Definition emit (e : event) : M unit :=
  fun st =>
    (Value tt, {| status := status st; headers := headers st;
                  sent := sent st; trace := e :: trace st |}).

Definition setHeader (name : string) (v : jsstring) : M unit :=
  fun st =>
    (Value tt, {| status := status st; headers := (name, v) :: headers st;
                  sent := sent st; trace := trace st |}).

Definition set_status (n : nat) : M unit :=
  fun st =>
    (Value tt, {| status := n; headers := headers st;
                  sent := sent st; trace := trace st |}).

Definition send (p : payload) : M unit :=
  fun st =>
    (Value tt, {| status := status st; headers := headers st;
                  sent := Some p; trace := trace st |}).

Definition json (fields : list (string * jsstring)) : M unit := send (Json fields).

Definition end_ : M unit := send NoBody.

Definition headersSent : M bool :=
  fun st => (Value (match sent st with Some _ => true | None => false end), st).

Definition console_error (label : string) (e : option exn) : M unit :=
  emit (ConsoleError label e).

(** The state a handler leaves behind. *)
Definition run (m : M unit) : state := snd (m initial).

(** new Error(m) and a TypeError raised by the runtime *)
Definition new_error (w : world) (m : jsstring) : exn :=
  {| message := m; stack := str "Error: " ++ m ++ frames w |}.

Definition type_error (w : world) (m : jsstring) : exn :=
  {| message := m; stack := str "TypeError: " ++ m ++ frames w |}.

Definition is_empty (s : jsstring) : bool :=
  match s with [] => true | _ => false end.

(** [process.env.X || fallback] *)
Definition env_or (v : option jsstring) (fallback : jsstring) : jsstring :=
  match v with
  | Some (c :: s) => c :: s
  | _ => fallback
  end.

(** [text?.trim() || ""] for a field of the body: undefined for an absent
    or null field, a TypeError for a value that has no trim method. *)
Definition trim_or_empty (w : world) (field : string) (v : jsval) : M jsstring :=
  match v with
  | JUndefined | JNull => ret []
  | JStr s => ret (trim s)
  | _ => throw (type_error w (str field ++ str ".trim is not a function"))
  end.

(** ** Audio: draining the stream and base64 *)

Definition b64_char (i : N) : N :=
  if i <? 26 then 65 + i
  else if i <? 52 then 97 + (i - 26)
  else if i <? 62 then 48 + (i - 52)
  else if i =? 62 then 43
  else 47.

(** Buffer.prototype.toString("base64") *)
Fixpoint base64 (bs : list Byte.byte) : jsstring :=
  match bs with
  | [] => []
  | [a] =>
      let a := Byte.to_N a in
      [b64_char (a / 4); b64_char ((a mod 4) * 16); EQUALS; EQUALS]
  | [a; b] =>
      let a := Byte.to_N a in
      let b := Byte.to_N b in
      [b64_char (a / 4); b64_char ((a mod 4) * 16 + b / 16);
       b64_char ((b mod 16) * 4); EQUALS]
  | a :: b :: c :: rest =>
      let a := Byte.to_N a in
      let b := Byte.to_N b in
      let c := Byte.to_N c in
      [b64_char (a / 4); b64_char ((a mod 4) * 16 + b / 16);
       b64_char ((b mod 16) * 4 + c / 64); b64_char (c mod 64)]
      ++ base64 rest
  end.

(** The promise around the data, end and error events of the stream: the
    chunks are pushed in order; an error event is logged and rejects. *)
Definition read_stream (s : audio_stream) : M (list (list Byte.byte)) :=
  match closing s with
  | None => ret (chunks_of s)
  | Some err =>
      console_error "Error reading audio stream:" (Some err) ;;
      throw err
  end.

Definition MSG_TTS_FAILED : jsstring := str "Failed to generate audio: ".
Definition MSG_NO_STREAM : jsstring :=
  str "No valid audio stream received from ElevenLabs".
Definition MSG_READ_FAILED : jsstring := str "Failed to read audio stream: ".
Definition MSG_NO_DATA : jsstring := str "No audio data received from ElevenLabs".

Definition DEFAULT_VOICE : jsstring := str "jUjRbhZWoMK4aDciW36V".

(** The text-to-speech block shared word for word by the five handlers that
    synthesize (api/generate-voice.js lines 76 to 134): call the service,
    check the stream, drain it, check the chunks, concatenate and encode. *)
Definition synthesize (w : world) (txt : jsstring) : M jsstring :=
  let voiceId := env_or (ELEVENLABS_VOICE_ID w) DEFAULT_VOICE in
  audioStream <-
    try_catch
      (emit (Synthesize voiceId txt) ;;
       match textToSpeech w voiceId txt with
       | TtsRaises e => throw e
       | TtsReturns s => ret s
       end)
      (fun ttsErr =>
         console_error "ElevenLabs TTS error:" (Some ttsErr) ;;
         throw (new_error w (MSG_TTS_FAILED ++ message ttsErr))) ;;
  match audioStream with
  | None =>
      console_error "No audio stream received from ElevenLabs" None ;;
      throw (new_error w MSG_NO_STREAM)
  | Some nodeStream =>
      chunks <-
        try_catch (read_stream nodeStream)
          (fun streamErr =>
             throw (new_error w (MSG_READ_FAILED ++ message streamErr))) ;;
      if Nat.eqb (List.length chunks) 0 then throw (new_error w MSG_NO_DATA)
      else
        let audioBuffer := List.concat chunks in
        ret (base64 audioBuffer)
  end.

(** ** Prompts *)

Definition PROMPT_TAIL : jsstring :=
  [DQUOTE] ++ str ". " ++ [LF]
  ++ str "Include natural dialogues between characters, proper narrative flow, and make it interesting. "
  ++ [LF]
  ++ str "Keep it under 20 words and make it suitable for text-to-speech reading. "
  ++ [LF]
  ++ str "Don't include markdown formatting or special characters, just plain text with dialogue.".

Definition story_prompt (idea : jsstring) : jsstring :=
  str "Write a very short, engaging story based on this idea: " ++ [DQUOTE]
  ++ idea ++ PROMPT_TAIL.

Definition image_story_prompt (idea : jsstring) : jsstring :=
  str "Write a very short, engaging story based on this idea extracted from an image: "
  ++ [DQUOTE] ++ idea ++ PROMPT_TAIL.

Definition EXTRACT_PROMPT : jsstring :=
  str "Extract all text from this image. Return only the text content, nothing else.".

(** model.generateContent(input) followed by response.text() *)
Definition generate (w : world) (model : string) (input : gen_input) : M jsstring :=
  emit (Generate model input) ;;
  match generateContent w model input with
  | Returns t => ret t
  | Raises e => throw e
  end.

Definition re_data_url : regex :=
  lit "data:image/" ++ plus is_word ++ lit ";base64,".
Definition re_data_mime : regex :=
  lit "data:image/" ++ plus is_word ++ lit ";base64".

(** The object built by base64ToGeminiFormat from a string: the data without
    its data-URL prefix and the MIME type taken from the prefix (the
    captured group lies between the 11 code units of the head and the 7 of
    the tail of the match). *)
Definition inlineData (base64String : jsstring) : jsstring * jsstring :=
  let base64Data :=
    match rmatch re_data_url base64String with
    | Some n => skipn n base64String
    | None => base64String
    end in
  let mimeType :=
    match rmatch re_data_mime base64String with
    | Some n => str "image/" ++ firstn (n - 18) (skipn 11 base64String)
    | None => str "image/png"
    end in
  (base64Data, mimeType).

(** base64ToGeminiFormat applied to a field of the body: a value without a
    replace method raises a TypeError. *)
Definition base64ToGeminiFormat (w : world) (img : jsval) : M (jsstring * jsstring) :=
  match img with
  | JStr base64String => ret (inlineData base64String)
  | _ => throw (type_error w (str "base64String.replace is not a function"))
  end.

(** ** Messages of the responses *)

Definition ERR_METHOD : jsstring := str "Method not allowed".
Definition ERR_GENERIC : jsstring :=
  str "An error occurred processing your request. Please try again.".
Definition ERR_INTERNAL : jsstring := str "Internal server error".
Definition ERR_TEXT_REQUIRED : jsstring :=
  str "Text is required. Please provide a story idea or topic.".
Definition ERR_TEXT_INVALID : jsstring :=
  str "Invalid input. Please provide valid text.".
Definition ERR_VOICE_REQUIRED : jsstring :=
  str "Story text is required to generate voiceover.".
Definition ERR_VOICE_INVALID : jsstring :=
  str "Invalid story text. Please provide valid text to generate voiceover.".
Definition ERR_IMAGE_REQUIRED : jsstring :=
  str "Image is required. Please upload an image.".
Definition ERR_NO_TEXT_EXTRACTED : jsstring :=
  str "No text could be extracted from the image. Please try a different image.".
Definition ERR_PROCESS_REQUIRED : jsstring :=
  str "Text is required. Please provide text to process.".
Definition ERR_PROCESS_INVALID : jsstring :=
  str "Invalid input. Please provide valid text to process.".

Definition OPTIONS : jsstring := str "OPTIONS".
Definition POST : jsstring := str "POST".
Definition DEVELOPMENT : jsstring := str "development".
Definition AUDIO_MPEG : jsstring := str "audio/mpeg".

(** ** Route bodies *)

(** The catch clause of the handlers that answer with a fixed message. *)
Definition catch_generic (err : exn) : M unit :=
  console_error "Server error:" (Some err) ;;
  hs <- headersSent ;;
  if negb hs then
    set_status 500 ;;
    json [("error"%string, ERR_GENERIC)]
  else ret tt.

(** The object sent by the catch clause of the generate handlers:
    error is [err.message || "Internal server error"], and details is the
    stack when NODE_ENV is "development" (an undefined field is left out of
    the JSON text). *)
Definition error_with_details (w : world) (err : exn) : list (string * jsstring) :=
  let errorMessage := if is_empty (message err) then ERR_INTERNAL else message err in
  ("error"%string, errorMessage)
  :: match NODE_ENV w with
     | Some v => if jseqb v DEVELOPMENT then [("details"%string, stack err)] else []
     | None => []
     end.

(** POST /api/generate-voice: api/generate-voice.js lines 54 to 152, and the
    same text in the server, lines 226 to 324. *)
Definition generate_voice_body (w : world) (req : request) : M unit :=
  try_catch
    (storyText <- trim_or_empty w "text" (text req) ;;
     (if is_empty storyText then
        set_status 400 ;;
        json [("error"%string, ERR_VOICE_REQUIRED)] ;;
        return_
      else ret tt) ;;
     let sanitizedStoryText := sanitizeInput (JStr storyText) in
     (if is_empty sanitizedStoryText
         || Nat.eqb (List.length sanitizedStoryText) 0 then
        set_status 400 ;;
        json [("error"%string, ERR_VOICE_INVALID)] ;;
        return_
      else ret tt) ;;
     audioBase64 <- synthesize w sanitizedStoryText ;;
     json [("audioBase64"%string, audioBase64); ("audioMime"%string, AUDIO_MPEG)])
    catch_generic.

(** POST /api/process-text: the process-text function, lines 53 to 109, and
    the same text in the server, lines 165 to 221. *)
Definition process_text_body (w : world) (req : request) : M unit :=
  try_catch
    (inputText <- trim_or_empty w "text" (text req) ;;
     (if is_empty inputText then
        set_status 400 ;;
        json [("error"%string, ERR_PROCESS_REQUIRED)] ;;
        return_
      else ret tt) ;;
     processedStory <-
       try_catch
         (let sanitizedInput := sanitizeInput (JStr inputText) in
          (if is_empty sanitizedInput
              || Nat.eqb (List.length sanitizedInput) 0 then
             set_status 400 ;;
             json [("error"%string, ERR_PROCESS_INVALID)] ;;
             return_
           else ret tt) ;;
          generate w "gemini-2.0-flash" (Prompt (story_prompt sanitizedInput)))
         (fun processErr =>
            console_error "Text processing error:" (Some processErr) ;;
            throw (new_error w (str "Failed to process text: " ++ message processErr))) ;;
     json [("processedStory"%string, processedStory)])
    catch_generic.

(** POST /api/extract-and-process: the extract-and-process function, lines
    66 to 141, which extracts with [vision_model] "gemini-1.5-pro", and the
    server, lines 85 to 160, which extracts with "gemini-2.0-flash". *)
Definition extract_and_process_body (vision_model : string)
    (w : world) (req : request) : M unit :=
  try_catch
    ((if negb (truthy (image req)) then
        set_status 400 ;;
        json [("error"%string, ERR_IMAGE_REQUIRED)] ;;
        return_
      else ret tt) ;;
     extractedText <-
       try_catch
         (imagePart <- base64ToGeminiFormat w (image req) ;;
          generate w vision_model
            (Vision EXTRACT_PROMPT (fst imagePart) (snd imagePart)))
         (fun extractErr =>
            console_error "Text extraction error:" (Some extractErr) ;;
            throw (new_error w
                     (str "Failed to extract text from image: " ++ message extractErr))) ;;
     (if is_empty extractedText
         || Nat.eqb (List.length (trim extractedText)) 0 then
        set_status 400 ;;
        json [("error"%string, ERR_NO_TEXT_EXTRACTED)] ;;
        return_
      else ret tt) ;;
     processedStory <-
       try_catch
         (let sanitizedText := sanitizeInput (JStr extractedText) in
          generate w "gemini-2.0-flash" (Prompt (image_story_prompt sanitizedText)))
         (fun processErr =>
            console_error "Text processing error:" (Some processErr) ;;
            throw (new_error w (str "Failed to process text: " ++ message processErr))) ;;
     json [("extractedText"%string, extractedText);
           ("processedStory"%string, processedStory)])
    catch_generic.

(** POST /api/generate of api/generate.js, lines 34 to 148. *)
Definition generate_function_body (w : world) (req : request) : M unit :=
  try_catch
    (userInput <- trim_or_empty w "text" (text req) ;;
     (if is_empty userInput then
        set_status 400 ;;
        json [("error"%string, ERR_TEXT_REQUIRED)] ;;
        return_
      else ret tt) ;;
     generatedStory <-
       try_catch
         (generate w "gemini-2.0-flash" (Prompt (story_prompt userInput)))
         (fun geminiErr =>
            console_error "Gemini generation error:" (Some geminiErr) ;;
            throw (new_error w (str "Failed to generate story: " ++ message geminiErr))) ;;
     audioBase64 <- synthesize w generatedStory ;;
     json [("text"%string, generatedStory); ("audioBase64"%string, audioBase64);
           ("audioMime"%string, AUDIO_MPEG)] ;;
     return_)
    (fun err =>
       console_error "Server error:" (Some err) ;;
       set_status 500 ;;
       json (error_with_details w err) ;;
       return_).

(** POST /api/generate of backend/index.js, lines 22 to 140. *)
Definition generate_legacy_body (w : world) (req : request) : M unit :=
  try_catch
    (userInput <- trim_or_empty w "text" (text req) ;;
     (if is_empty userInput then
        set_status 400 ;;
        json [("error"%string, ERR_TEXT_REQUIRED)] ;;
        return_
      else ret tt) ;;
     generatedStory <-
       try_catch
         (generate w "gemini-2.0-flash" (Prompt (story_prompt userInput)))
         (fun geminiErr =>
            console_error "Gemini generation error:" (Some geminiErr) ;;
            throw (new_error w (str "Failed to generate story: " ++ message geminiErr))) ;;
     audioBase64 <- synthesize w generatedStory ;;
     json [("text"%string, generatedStory); ("audioBase64"%string, audioBase64);
           ("audioMime"%string, AUDIO_MPEG)])
    (fun err =>
       console_error "Server error:" (Some err) ;;
       hs <- headersSent ;;
       if negb hs then
         set_status 500 ;;
         json (error_with_details w err)
       else ret tt).

(** POST /api/generate of the server with the allow-list, lines 329 to 455. *)
Definition generate_server_body (w : world) (req : request) : M unit :=
  try_catch
    (userInput <- trim_or_empty w "text" (text req) ;;
     (if is_empty userInput then
        set_status 400 ;;
        json [("error"%string, ERR_TEXT_REQUIRED)] ;;
        return_
      else ret tt) ;;
     generatedStory <-
       try_catch
         (let sanitizedInput := sanitizeInput (JStr userInput) in
          (if is_empty sanitizedInput
              || Nat.eqb (List.length sanitizedInput) 0 then
             set_status 400 ;;
             json [("error"%string, ERR_TEXT_INVALID)] ;;
             return_
           else ret tt) ;;
          generate w "gemini-2.0-flash" (Prompt (story_prompt sanitizedInput)))
         (fun geminiErr =>
            console_error "Gemini generation error:" (Some geminiErr) ;;
            throw (new_error w (str "Failed to generate story: " ++ message geminiErr))) ;;
     audioBase64 <- synthesize w generatedStory ;;
     json [("text"%string, generatedStory); ("audioBase64"%string, audioBase64);
           ("audioMime"%string, AUDIO_MPEG)])
    (fun err =>
       console_error "Server error:" (Some err) ;;
       hs <- headersSent ;;
       if negb hs then
         set_status 500 ;;
         json (error_with_details w err)
       else ret tt).

(** ** The serverless functions: cross-origin headers and method check *)

Definition LOCAL_5173 : jsstring := str "http://localhost:5173".
Definition LOCAL_3000 : jsstring := str "http://localhost:3000".

(** [[FRONTEND_URL, ...].filter(Boolean)] *)
Definition allowedOrigins (w : world) : list jsstring :=
  match FRONTEND_URL w with
  | Some (c :: u) => [c :: u]
  | _ => []
  end ++ [LOCAL_5173; LOCAL_3000].

Definition includes (l : list jsstring) (x : jsstring) : bool :=
  existsb (jseqb x) l.

(** Lines 29 to 42 of api/generate-voice.js, the same in the process-text
    and extract-and-process functions. *)
Definition cors_allow_list (w : world) (req : request) : M unit :=
  match origin req with
  | Some o =>
      if negb (is_empty o) && includes (allowedOrigins w) o then
        setHeader "Access-Control-Allow-Origin" o
      else ret tt
  | None => ret tt
  end ;;
  setHeader "Access-Control-Allow-Credentials" (str "true") ;;
  setHeader "Access-Control-Allow-Methods" (str "POST, OPTIONS") ;;
  setHeader "Access-Control-Allow-Headers" (str "Content-Type").

(** Lines 16 to 20 of api/generate.js. *)
Definition cors_any_origin : M unit :=
  setHeader "Access-Control-Allow-Credentials" (str "true") ;;
  setHeader "Access-Control-Allow-Origin" (str "*") ;;
  setHeader "Access-Control-Allow-Methods" (str "GET,OPTIONS,PATCH,DELETE,POST,PUT") ;;
  setHeader "Access-Control-Allow-Headers"
    (str "X-CSRF-Token, X-Requested-With, Accept, Accept-Version, Content-Length, Content-MD5, Content-Type, Date, X-Api-Version").

(** The preflight and method checks that open each function. *)
Definition method_check (req : request) (body : M unit) : M unit :=
  (if jseqb (method req) OPTIONS then
     set_status 200 ;; end_ ;; return_
   else ret tt) ;;
  (if negb (jseqb (method req) POST) then
     set_status 405 ;;
     json [("error"%string, ERR_METHOD)] ;;
     return_
   else ret tt) ;;
  body.

Inductive route := RGenerate | RGenerateVoice | RExtractAndProcess | RProcessText.

(** The four exported handlers of the serverless deployment. *)
Definition function_handler (r : route) (w : world) (req : request) : M unit :=
  match r with
  | RGenerate =>
      cors_any_origin ;; method_check req (generate_function_body w req)
  | RGenerateVoice =>
      cors_allow_list w req ;; method_check req (generate_voice_body w req)
  | RExtractAndProcess =>
      cors_allow_list w req ;;
      method_check req (extract_and_process_body "gemini-1.5-pro" w req)
  | RProcessText =>
      cors_allow_list w req ;; method_check req (process_text_body w req)
  end.

(** The four app.post callbacks of the server with the allow-list.  They
    are registered for POST only; the cors, rate-limit and JSON middleware
    that express runs before them is library code and is not modelled. *)
Definition server_handler (r : route) (w : world) (req : request) : M unit :=
  match r with
  | RGenerate => generate_server_body w req
  | RGenerateVoice => generate_voice_body w req
  | RExtractAndProcess => extract_and_process_body "gemini-2.0-flash" w req
  | RProcessText => process_text_body w req
  end.

(** Every request handler of the repository. *)
Inductive endpoint :=
| Function (r : route)
| Server (r : route)
| Legacy.

Definition handler (e : endpoint) (w : world) (req : request) : M unit :=
  match e with
  | Function r => function_handler r w req
  | Server r => server_handler r w req
  | Legacy => generate_legacy_body w req
  end.

Definition respond (e : endpoint) (w : world) (req : request) : state :=
  run (handler e w req).

(** ** The sanitizer as the specification words it

    Each step of section 4.1 of the specification, written without regular
    expressions.  The theorems below compare them with [sanitizeInput]. *)

(** Number of leading code units of [s] in the class [p]. *)
Fixpoint run_length (p : N -> bool) (s : jsstring) : nat :=
  match s with
  | c :: s' => if p c then S (run_length p s') else O
  | [] => O
  end.

(** Two code units are the same letter up to ASCII case. *)
Definition same_letter (a b : N) : bool := upper a =? upper b.

(** [s] starts with the literal [l], ignoring case. *)
Fixpoint starts_with_ci (l s : jsstring) : bool :=
  match l, s with
  | [], _ => true
  | a :: l', c :: s' => same_letter a c && starts_with_ci l' s'
  | _ :: _, [] => false
  end.

(** An occurrence of the literal "javascript:" at the start of [s]. *)
Definition javascript_at (s : jsstring) : option nat :=
  if starts_with_ci (str "javascript:") s then Some 11%nat else None.

(** An occurrence of on<word-characters><optional whitespace>= at the start
    of [s]: the letters o and n in either case, at least one word character,
    any whitespace, then an equals sign. *)
Definition handler_at (s : jsstring) : option nat :=
  if starts_with_ci (str "on") s then
    let rest := skipn 2 s in
    let nw := run_length is_word rest in
    let ns := run_length is_space (skipn nw rest) in
    match nw, skipn ns (skipn nw rest) with
    | S _, c :: _ => if c =? EQUALS then Some (2 + nw + ns + 1)%nat else None
    | _, _ => None
    end
  else None.

(** Removal of every occurrence, left to right: [occ t] is the length of the
    occurrence that starts [t], if there is one. *)
Fixpoint remove_from (occ : jsstring -> option nat) (skip : nat) (s : jsstring)
  : jsstring :=
  match s with
  | [] => []
  | c :: s' =>
      match skip with
      | S k => remove_from occ k s'
      | O =>
          match occ s with
          | Some (S k) => remove_from occ k s'
          | _ => c :: remove_from occ O s'
          end
      end
  end.

Definition remove_every (occ : jsstring -> option nat) (s : jsstring) : jsstring :=
  remove_from occ O s.

Definition strip_markup (s : jsstring) : jsstring :=
  filter (fun c => negb (is_markup c)) s.

Definition linebreaks_to_spaces (s : jsstring) : jsstring :=
  List.map (fun c => if is_linebreak c then SP else c) s.

(** Every run of whitespace becomes one space; [in_run] tells that the
    previous code unit was whitespace. *)
Fixpoint collapse_from (in_run : bool) (s : jsstring) : jsstring :=
  match s with
  | [] => []
  | c :: s' =>
      if is_space c then
        if in_run then collapse_from true s' else SP :: collapse_from true s'
      else c :: collapse_from false s'
  end.

Definition collapse_whitespace (s : jsstring) : jsstring := collapse_from false s.

(** The text before truncation. *)
Definition cleaned_trimmed (s : jsstring) : jsstring :=
  trim
    (collapse_whitespace
      (linebreaks_to_spaces
        (remove_every handler_at
          (remove_every javascript_at
            (strip_markup s))))).

Definition sanitize_spec (input : jsval) : jsstring :=
  match input with
  | JStr s => firstn 2000 (cleaned_trimmed s)
  | _ => []
  end.

(** A text is already clean when no step of the sanitizer finds anything to
    do in it except turning a lone whitespace character into a space. *)
Fixpoint nowhere (occ : jsstring -> option nat) (s : jsstring) : bool :=
  match s with
  | [] => true
  | _ :: s' => match occ s with Some _ => false | None => nowhere occ s' end
  end.

Fixpoint no_repeated_space (s : jsstring) : bool :=
  match s with
  | a :: s' =>
      match s' with
      | b :: _ => negb (is_space a && is_space b) && no_repeated_space s'
      | [] => true
      end
  | [] => true
  end.

Definition no_leading_space (s : jsstring) : bool :=
  match s with c :: _ => negb (is_space c) | [] => true end.

Definition already_clean (s : jsstring) : bool :=
  forallb (fun c => negb (is_markup c)) s
  && nowhere javascript_at s
  && nowhere handler_at s
  && forallb (fun c => negb (is_linebreak c)) s
  && no_repeated_space s
  && no_leading_space s
  && no_leading_space (rev s)
  && Nat.leb (List.length s) MAX_LENGTH.

(** A lone whitespace character of a clean text becomes a space. *)
Definition to_space (c : N) : N := if is_space c then SP else c.

(** The length [m] of the rest of a match, after [n] code units. *)
Definition shift (n : nat) (m : option nat) : option nat := option_map (Nat.add n) m.

(** A class is stable when it cannot tell a whitespace character from a
    space. *)
Definition stable (p : N -> bool) : Prop := forall c, p (to_space c) = p c.

Definition atom_stable (a : atom) : Prop :=
  match a with One p | Star p => stable p end.

(** ** Observing a response *)

Definition is_external (e : event) : bool :=
  match e with
  | Generate _ _ | Synthesize _ _ => true
  | ConsoleError _ _ => false
  end.

(** The calls made to the two upstream services. *)
Definition external_calls (st : state) : list event :=
  filter is_external (trace st).


Fixpoint lookup (name : string) (fields : list (string * jsstring))
  : option jsstring :=
  match fields with
  | (k, v) :: rest => if String.eqb k name then Some v else lookup name rest
  | [] => None
  end.

(** A field of the JSON body of the response. *)
Definition json_field (name : string) (st : state) : option jsstring :=
  match sent st with
  | Some (Json fields) => lookup name fields
  | _ => None
  end.

(** The message of the error that the outer catch clause logged. *)
Fixpoint server_error (tr : list event) : option jsstring :=
  match tr with
  | ConsoleError label (Some e) :: rest =>
      if String.eqb label "Server error:" then Some (message e)
      else server_error rest
  | _ :: rest => server_error rest
  | [] => None
  end.

Definition diagnostic (st : state) : option jsstring := server_error (trace st).

(** A required field is missing when it is absent or null, and blank when
    it is a string of whitespace only. *)
Definition missing (v : jsval) : bool :=
  match v with JUndefined | JNull => true | _ => false end.

Definition blank (v : jsval) : bool :=
  match v with JStr s => is_empty (trim s) | _ => false end.

(** The request reaches the body of the handler: a function checks the
    method itself, a server callback is registered for POST only. *)
Definition reaches_body (e : endpoint) (req : request) : Prop :=
  match e with
  | Function _ => method req = POST
  | _ => True
  end.

Definition route_of (e : endpoint) : route :=
  match e with
  | Function r | Server r => r
  | Legacy => RGenerate
  end.

(** The message of the 400 response for a missing or blank field. *)
Definition required_message (r : route) : jsstring :=
  match r with
  | RGenerate => ERR_TEXT_REQUIRED
  | RGenerateVoice => ERR_VOICE_REQUIRED
  | RExtractAndProcess => ERR_IMAGE_REQUIRED
  | RProcessText => ERR_PROCESS_REQUIRED
  end.

(** The message of the 400 response for a text that sanitizes to nothing,
    in the handlers that sanitize the text field. *)
Definition invalid_message (e : endpoint) : option jsstring :=
  match e with
  | Function RGenerateVoice | Server RGenerateVoice => Some ERR_VOICE_INVALID
  | Function RProcessText | Server RProcessText => Some ERR_PROCESS_INVALID
  | Server RGenerate => Some ERR_TEXT_INVALID
  | _ => None
  end.

(** The handlers that call the speech service. *)
Definition synthesizes (e : endpoint) : bool :=
  match route_of e with
  | RGenerate | RGenerateVoice => true
  | _ => false
  end.

(** The request failed with the diagnostic [msg]: status 500, the message
    logged by the catch clause, and no audio in the body. *)
Definition failed_with (msg : jsstring) (st : state) : Prop :=
  status st = 500%nat
  /\ diagnostic st = Some msg
  /\ json_field "audioBase64" st = None.

(** What a request that called the speech service ends in, by the
    behaviour of the service. *)
Definition tts_outcome (r : tts_result) (st : state) : Prop :=
  match r with
  | TtsRaises err => failed_with (MSG_TTS_FAILED ++ message err) st
  | TtsReturns None => failed_with MSG_NO_STREAM st
  | TtsReturns (Some s) =>
      match closing s with
      | Some err => failed_with (MSG_READ_FAILED ++ message err) st
      | None =>
          if Nat.eqb (List.length (chunks_of s)) 0%nat then failed_with MSG_NO_DATA st
          else status st = 200%nat
               /\ json_field "audioBase64" st
                  = Some (base64 (List.concat (chunks_of s)))
      end
  end.

(** ** Sample requests and upstream behaviours *)

Definition post (t : jsval) (img : jsval) : request :=
  {| method := POST; origin := None; text := t; image := img |}.

Definition upstream_error (m : string) : exn :=
  {| message := str m; stack := str "GoogleGenerativeAIError: " ++ str m |}.

Definition one_chunk : audio_stream :=
  {| chunks_of := [[Byte.x49; Byte.x44; Byte.x33]]; closing := None |}.


(** Both services answer. *)
Definition healthy (extracted : jsstring) : world :=
  {| FRONTEND_URL := None; NODE_ENV := None; ELEVENLABS_VOICE_ID := None;
     generateContent := fun _ input =>
       match input with
       | Vision _ _ _ => Returns extracted
       | Prompt _ => Returns (str "Once upon a time.")
       end;
     textToSpeech := fun _ _ => TtsReturns (Some one_chunk);
     frames := [LF] ++ str "    at handler" |}.

(** The generation service fails. *)
Definition generation_down (node_env : option jsstring) : world :=
  {| FRONTEND_URL := None; NODE_ENV := node_env; ELEVENLABS_VOICE_ID := None;
     generateContent := fun _ _ => Raises (upstream_error "API key not valid");
     textToSpeech := fun _ _ => TtsReturns (Some one_chunk);
     frames := [LF] ++ str "    at handler" |}.

(** The generation service answers and the speech service behaves as given. *)
Definition speech (r : tts_result) : world :=
  {| FRONTEND_URL := None; NODE_ENV := None; ELEVENLABS_VOICE_ID := None;
     generateContent := fun _ _ => Returns (str "Once upon a time.");
     textToSpeech := fun _ _ => r;
     frames := [LF] ++ str "    at handler" |}.

(** An extraction result with markup, a line break and more than 2000
    code units. *)
Definition long_markup : jsstring :=
  str "<h1>'Title'</h1>" ++ [LF] ++ repeat 97 2000%nat.

(** ** Further definitions *)

(** [s] starts with the literal [l]. *)
Fixpoint starts_with (l s : list N) : bool :=
  match l, s with
  | [], _ => true
  | a :: l', c :: s' => N.eqb a c && starts_with l' s'
  | _ :: _, [] => false
  end.

(** [holds P st]: the final state [st] satisfies [P]. *)
Definition holds (P : state -> Prop) (st : state) : Prop := P st.

(** The voice passed to the speech service. *)
Definition configured_voice (w : world) : list N :=
  env_or (ELEVENLABS_VOICE_ID w) DEFAULT_VOICE.

(** The upstream calls a handler can have made, most recent first. *)
Definition expected_calls (e : endpoint) (w : world) (calls : list event) : Prop :=
  match route_of e with
  | RProcessText =>
      calls = []
      \/ exists p, calls = [Generate "gemini-2.0-flash" (Prompt p)]
  | RGenerateVoice =>
      calls = []
      \/ exists t, calls = [Synthesize (configured_voice w) t]
  | RExtractAndProcess =>
      calls = []
      \/ exists vm d m,
           calls = [Generate vm (Vision EXTRACT_PROMPT d m)]
           \/ exists p,
                calls = [Generate "gemini-2.0-flash" (Prompt p);
                         Generate vm (Vision EXTRACT_PROMPT d m)]
  | RGenerate =>
      calls = []
      \/ exists p,
           calls = [Generate "gemini-2.0-flash" (Prompt p)]
           \/ exists story,
                generateContent w "gemini-2.0-flash" (Prompt p) = Returns story
                /\ calls = [Synthesize (configured_voice w) story;
                            Generate "gemini-2.0-flash" (Prompt p)]
  end.

(** A value of the body that is present but has no string methods. *)
Definition not_a_string (v : jsval) : bool :=
  match v with
  | JBool _ | JNum _ | JObj => true
  | _ => false
  end.

(** The keys of the JSON body of a success, by route. *)
Definition success_keys (r : route) : list string :=
  match r with
  | RGenerate => ["text"; "audioBase64"; "audioMime"]%string
  | RGenerateVoice => ["audioBase64"; "audioMime"]%string
  | RExtractAndProcess => ["extractedText"; "processedStory"]%string
  | RProcessText => ["processedStory"]%string
  end.

(** ** The origin policy of the server *)

Inductive cors_decision :=
| CorsAllowed
| CorsRejected (e : exn).

(** corsOptions.origin of the server with the allow-list, lines 21 to 29:
    the callback receives (null, true) or the error. *)
Definition cors_origin (w : world) (o : option (list N)) : cors_decision :=
  match o with
  | None => CorsAllowed
  | Some v =>
      if is_empty v || includes (allowedOrigins w) v then CorsAllowed
      else CorsRejected (new_error w (str "Not allowed by CORS"))
  end.

(** The Access-Control-Allow-Origin header of a response. *)
Definition allow_origin (st : state) : option (list N) :=
  lookup "Access-Control-Allow-Origin" (headers st).

(** The origin echoed by the functions with the allow-list. *)
Definition echoed_origin (w : world) (req : request) : option (list N) :=
  match origin req with
  | Some o =>
      if negb (is_empty o) && includes (allowedOrigins w) o then Some o else None
  | None => None
  end.

(** ** The page: what its buttons send *)

Inductive ui_action :=
| UiAlert (msg : list N)
| UiPost (r : route) (txt : jsval) (img : jsval)
| UiIdle.

Definition has_value (v : option (list N)) : bool :=
  match v with
  | Some (_ :: _) => true
  | _ => false
  end.

(** handleExtractAndProcess of App.jsx, lines 23 to 37, with the request
    bodies of handleImageExtraction and handleTextProcessing. *)
Definition handleExtractAndProcess (imageDataUrl : option (list N))
    (inputText : list N) : ui_action :=
  if negb (has_value imageDataUrl) && is_empty (trim inputText) then
    UiAlert (str "Please upload an image or enter text")
  else if has_value imageDataUrl then
    UiPost RExtractAndProcess JUndefined
      (match imageDataUrl with Some i => JStr i | None => JNull end)
  else if negb (is_empty (trim inputText)) then
    UiPost RProcessText (JStr inputText) JUndefined
  else UiIdle.

(** handleGenerateVoice of App.jsx, lines 136 to 150. *)
Definition handleGenerateVoice (processedStory : option (list N)) : ui_action :=
  if negb (has_value processedStory) then
    UiAlert (str "Please process text or image first")
  else
    UiPost RGenerateVoice
      (match processedStory with Some s => JStr s | None => JNull end)
      JUndefined.

(** The request that reaches a handler for a POST of the page; the Origin
    header is the browser's. *)
Definition posted (o : option (list N)) (txt img : jsval) : request :=
  {| method := POST; origin := o; text := txt; image := img |}.

(** ** The player: atob and base64ToBlob of StoryPlayer.jsx *)

(** ASCII whitespace, which atob removes first. *)
Definition is_ascii_whitespace (c : N) : bool :=
  (c =? 9) || (c =? 10) || (c =? 12) || (c =? 13) || (c =? 32).

(** The value of a code unit of the base64 alphabet. *)
Definition b64_value (c : N) : option N :=
  if (65 <=? c) && (c <=? 90) then Some (c - 65)
  else if (97 <=? c) && (c <=? 122) then Some (c - 97 + 26)
  else if (48 <=? c) && (c <=? 57) then Some (c - 48 + 52)
  else if c =? 43 then Some 62
  else if c =? 47 then Some 63
  else None.

(** Remove one or two equals signs from the end. *)
Definition drop_padding (s : list N) : list N :=
  match rev s with
  | c1 :: r =>
      if c1 =? EQUALS then
        match r with
        | c2 :: r' => if c2 =? EQUALS then rev r' else rev r
        | [] => rev r
        end
      else s
  | [] => s
  end.

Fixpoint values_of (s : list N) : option (list N) :=
  match s with
  | [] => Some []
  | c :: s' =>
      match b64_value c, values_of s' with
      | Some v, Some vs => Some (v :: vs)
      | _, _ => None
      end
  end.

(** Four values of six bits give three bytes; two or three left over give
    one or two bytes, the spare bits being dropped. *)
Fixpoint decode_sextets (vs : list N) : list N :=
  match vs with
  | v1 :: v2 :: v3 :: v4 :: rest =>
      [v1 * 4 + v2 / 16; (v2 mod 16) * 16 + v3 / 4; (v3 mod 4) * 64 + v4]
      ++ decode_sextets rest
  | [v1; v2; v3] => [v1 * 4 + v2 / 16; (v2 mod 16) * 16 + v3 / 4]
  | [v1; v2] => [v1 * 4 + v2 / 16]
  | _ => []
  end.

(** window.atob: the forgiving base64 decoding; [None] is the
    InvalidCharacterError. *)
Definition atob (data : list N) : option (list N) :=
  let data := filter (fun c => negb (is_ascii_whitespace c)) data in
  let data :=
    if Nat.eqb (Nat.modulo (List.length data) 4) 0 then drop_padding data
    else data in
  if Nat.eqb (Nat.modulo (List.length data) 4) 1 then None
  else
    match values_of data with
    | Some vs => Some (decode_sextets vs)
    | None => None
    end.

(** A store into a Uint8Array keeps the low eight bits. *)
Definition to_uint8 (c : N) : Byte.byte :=
  match Byte.of_N (c mod 256) with
  | Some b => b
  | None => Byte.x00
  end.

(** u8arr[i] = b, for an index within the array. *)
Fixpoint store (i : nat) (b : Byte.byte) (arr : list Byte.byte) {struct arr}
  : list Byte.byte :=
  match arr with
  | [] => []
  | x :: arr' =>
      match i with
      | O => b :: arr'
      | S i' => x :: store i' b arr'
      end
  end.

(** while (n--) u8arr[n] = bstr.charCodeAt(n) *)
Fixpoint fill_down (n : nat) (bstr : list N) (u8arr : list Byte.byte)
  : list Byte.byte :=
  match n with
  | O => u8arr
  | S k => fill_down k bstr (store k (to_uint8 (nth k bstr 0)) u8arr)
  end.

(** base64ToBlob of StoryPlayer.jsx, lines 36 to 44: the bytes and the type
    of the blob. *)
Definition base64ToBlob (base64 : list N) (mime : list N)
  : option (list Byte.byte * list N) :=
  match atob base64 with
  | Some bstr =>
      let n := List.length bstr in
      let u8arr := repeat Byte.x00 n in
      Some (fill_down n bstr u8arr, mime)
  | None => None
  end.

(** The six-bit groups and the padding that [base64] writes. *)
Fixpoint sextets (bs : list Byte.byte) : list N :=
  match bs with
  | [] => []
  | [a] =>
      let a := Byte.to_N a in
      [a / 4; (a mod 4) * 16]
  | [a; b] =>
      let a := Byte.to_N a in
      let b := Byte.to_N b in
      [a / 4; (a mod 4) * 16 + b / 16; (b mod 16) * 4]
  | a :: b :: c :: rest =>
      let a := Byte.to_N a in
      let b := Byte.to_N b in
      let c := Byte.to_N c in
      [a / 4; (a mod 4) * 16 + b / 16; (b mod 16) * 4 + c / 64; c mod 64]
      ++ sextets rest
  end.

Fixpoint padding (bs : list Byte.byte) : list N :=
  match bs with
  | [] => []
  | [_] => [EQUALS; EQUALS]
  | [_; _] => [EQUALS]
  | _ :: _ :: _ :: rest => padding rest
  end.

(** ** More sample behaviours *)

Definition hang_up : exn :=
  {| message := str "socket hang up"; stack := str "Error: socket hang up" |}.

(** A stream that fails after a first chunk. *)
Definition broken_stream : audio_stream :=
  {| chunks_of := [[Byte.x49; Byte.x44]]; closing := Some hang_up |}.

Definition localhost_post (t : jsval) : request :=
  {| method := POST; origin := Some LOCAL_5173; text := t; image := JUndefined |}.

(** * Properties *)

Local Open Scope nat_scope.

(** ** Examples *)

Example sanitize_script_tag :
  sanitize (str "<script>alert('x')</script>") = str "scriptalert(x)/script".
Proof. vm_compute. reflexivity. Qed.

Example sanitize_handler_and_scheme :
  sanitize (str "<img src=x onerror = alert(1)> JavaScript:go")
  = str "img src=x alert(1) go".
Proof. vm_compute. reflexivity. Qed.

(** One pass only: what the removals leave can form the literal again. *)
Example sanitize_single_pass :
  sanitize (str "javajavascript:script:x") = str "javascript:x".
Proof. vm_compute. reflexivity. Qed.

Example handler_pattern_matches :
  rmatch re_handler (str "onclick =x") = Some 9
  /\ rmatch re_handler (str "ONload=") = Some 7
  /\ rmatch re_handler (str "on=") = None
  /\ rmatch re_handler (str "only a word") = None.
Proof. vm_compute. repeat split; reflexivity. Qed.

Example inlineData_jpeg :
  inlineData (str "data:image/jpeg;base64,/9j/4AAQ") = (str "/9j/4AAQ", str "image/jpeg")
  /\ inlineData (str "/9j/4AAQ") = (str "/9j/4AAQ", str "image/png").
Proof. vm_compute. split; reflexivity. Qed.

Example base64_id3 :
  base64 [Byte.x49; Byte.x44; Byte.x33] = str "SUQz"
  /\ base64 [Byte.x49; Byte.x44] = str "SUQ="
  /\ base64 [Byte.x49] = str "SQ=="
  /\ base64 [Byte.xff; Byte.xfb; Byte.x90; Byte.x00] = str "//uQAA==".
Proof. vm_compute. repeat split; reflexivity. Qed.

Example generate_voice_success :
  sent (respond (Function RGenerateVoice) (healthy [])
          (post (JStr (str " hello ")) JUndefined))
  = Some (Json [("audioBase64"%string, str "SUQz"); ("audioMime"%string, AUDIO_MPEG)]).
Proof. vm_compute. reflexivity. Qed.

(** ** Character classes *)

Ltac bool_arith :=
  repeat match goal with
         | H : _ = true |- _ =>
             first [ apply orb_true_iff in H | apply andb_true_iff in H
                   | apply N.eqb_eq in H | apply N.leb_le in H
                   | apply N.ltb_lt in H | apply negb_true_iff in H ]
         | H : _ = false |- _ =>
             first [ apply orb_false_iff in H | apply andb_false_iff in H
                   | apply N.eqb_neq in H | apply N.leb_gt in H
                   | apply N.ltb_ge in H | apply negb_false_iff in H ]
         | H : _ /\ _ |- _ => destruct H
         | H : _ \/ _ |- _ => destruct H
         end;
  try lia.

Lemma space_not_word c : is_space c = true -> is_word c = false.
Proof.
  intros Hs. destruct (is_word c) eqn:Hw; [exfalso | reflexivity].
  unfold is_space, is_word in *. bool_arith.
Qed.

Lemma space_not_markup c : is_space c = true -> is_markup c = false.
Proof.
  intros Hs. destruct (is_markup c) eqn:Hw; [exfalso | reflexivity].
  unfold is_space, is_markup, LT, GT, DQUOTE, SQUOTE, BACKTICK in *. bool_arith.
Qed.

Lemma space_is_space : is_space SP = true.
Proof. reflexivity. Qed.

Lemma linebreak_is_space c : is_linebreak c = true -> is_space c = true.
Proof.
  intros H. unfold is_linebreak, CR, LF in H.
  apply orb_true_iff in H. destruct H as [H | H]; apply N.eqb_eq in H; subst; reflexivity.
Qed.

Lemma upper_small c : (c < 128)%N -> (upper c < 128)%N.
Proof.
  unfold upper. intros H. destruct ((97 <=? c)%N && (c <=? 122)%N); lia.
Qed.

Lemma upper_large c : (128 <= c)%N -> upper c = c.
Proof.
  unfold upper. intros H.
  destruct ((97 <=? c)%N && (c <=? 122)%N) eqn:E; [bool_arith | reflexivity].
Qed.

(** For an ASCII literal the test of the matcher is the comparison of
    letters of the specification. *)
Lemma ci_same_letter l c : (l < 128)%N -> ci l c = same_letter l c.
Proof.
  intros Hl. unfold ci, same_letter.
  destruct (c <? 128)%N eqn:Hc; simpl.
  - apply N.eqb_sym.
  - apply N.ltb_ge in Hc. rewrite (upper_large c Hc).
    pose proof (upper_small l Hl). symmetry. apply N.eqb_neq. lia.
Qed.

(** ** The matcher *)

Lemma rmatch_one p r c s :
  rmatch (One p :: r) (c :: s) = if p c then option_map S (rmatch r s) else None.
Proof. reflexivity. Qed.

Lemma rmatch_star p r s :
  rmatch (Star p :: r) s =
  match s with
  | c :: s' =>
      if p c then
        match rmatch (Star p :: r) s' with
        | Some n => Some (S n)
        | None => rmatch r s
        end
      else rmatch r s
  | [] => rmatch r s
  end.
Proof. destruct s; reflexivity. Qed.

Lemma shift_S n m : option_map S (shift n m) = shift (S n) m.
Proof. destruct m; reflexivity. Qed.

(** When what follows a repetition cannot start with a code unit of the
    repeated class, backtracking never helps: the repetition takes the whole
    run. *)
Lemma rmatch_star_greedy p r :
  (forall c t, p c = true -> rmatch r (c :: t) = None) ->
  forall s,
    rmatch (Star p :: r) s =
    shift (run_length p s) (rmatch r (skipn (run_length p s) s)).
Proof.
  intros Hr s. induction s as [| c s IH].
  - rewrite rmatch_star. simpl. destruct (rmatch r []); reflexivity.
  - rewrite rmatch_star. simpl run_length. destruct (p c) eqn:Hp.
    + rewrite IH. simpl skipn.
      destruct (rmatch r (skipn (run_length p s) s)) as [n |]; simpl.
      * reflexivity.
      * apply Hr, Hp.
    + simpl. destruct (rmatch r (c :: s)); reflexivity.
Qed.

Lemma rmatch_lit_ci l r s :
  Forall (fun c => (c < 128)%N) l ->
  rmatch (List.map (fun c => One (ci c)) l ++ r) s =
  if starts_with_ci l s
  then shift (List.length l) (rmatch r (skipn (List.length l) s))
  else None.
Proof.
  intros Hl. revert s. induction Hl as [| a l Ha Hl IH]; intros s.
  - simpl. destruct (rmatch r s); reflexivity.
  - destruct s as [| c s]; [reflexivity |].
    simpl List.map. simpl app. rewrite rmatch_one.
    rewrite (ci_same_letter a c Ha). simpl starts_with_ci.
    destruct (same_letter a c); simpl; [| reflexivity].
    rewrite IH. destruct (starts_with_ci l s); [| reflexivity].
    apply shift_S.
Qed.

Lemma ascii_javascript : Forall (fun c => (c < 128)%N) (str "javascript:").
Proof. repeat constructor. Qed.

Lemma ascii_on : Forall (fun c => (c < 128)%N) (str "on").
Proof. repeat constructor. Qed.

Lemma ascii_equals : Forall (fun c => (c < 128)%N) (str "=").
Proof. repeat constructor. Qed.

(** The literal pattern finds what the specification calls an occurrence of
    "javascript:". *)
Lemma rmatch_javascript s : rmatch re_javascript s = javascript_at s.
Proof.
  unfold re_javascript, lit_ci, javascript_at.
  rewrite <- (app_nil_r (List.map _ _)).
  rewrite (rmatch_lit_ci _ [] s ascii_javascript).
  destruct (starts_with_ci (str "javascript:") s); reflexivity.
Qed.

Lemma equals_tail_no_space c t :
  is_space c = true -> rmatch (lit_ci "=") (c :: t) = None.
Proof.
  intros Hs. unfold lit_ci. simpl List.map. rewrite rmatch_one.
  destruct (ci 61 c) eqn:E; [exfalso | reflexivity].
  unfold ci, upper, is_space in *.
  destruct ((97 <=? c)%N && (c <=? 122)%N) eqn:E1; simpl in E; bool_arith.
Qed.

Lemma equals_tail_no_word c t :
  is_word c = true -> rmatch (lit_ci "=") (c :: t) = None.
Proof.
  intros Hs. unfold lit_ci. simpl List.map. rewrite rmatch_one.
  destruct (ci 61 c) eqn:E; [exfalso | reflexivity].
  unfold ci, upper, is_word in *.
  destruct ((97 <=? c)%N && (c <=? 122)%N) eqn:E1; simpl in E; bool_arith.
Qed.

Lemma rmatch_equals s :
  rmatch (lit_ci "=") s =
  match s with
  | c :: _ => if (c =? EQUALS)%N then Some 1 else None
  | [] => None
  end.
Proof.
  destruct s as [| c s]; [reflexivity |].
  unfold lit_ci. simpl List.map. rewrite rmatch_one. simpl rmatch.
  unfold ci, upper, EQUALS.
  destruct (c =? 61)%N eqn:E.
  - apply N.eqb_eq in E. subst. reflexivity.
  - destruct (c <? 128)%N eqn:E0; [| reflexivity].
    destruct ((97 <=? c)%N && (c <=? 122)%N) eqn:E1; simpl.
    + destruct (c - 32 =? 61)%N eqn:E2; [exfalso; bool_arith | reflexivity].
    + rewrite E. reflexivity.
Qed.

Lemma word_not_space c : is_word c = true -> is_space c = false.
Proof.
  intros Hw. destruct (is_space c) eqn:Hs; [| reflexivity].
  rewrite (space_not_word c Hs) in Hw. discriminate.
Qed.

Lemma spaces_equals_tail s :
  rmatch (Star is_space :: lit_ci "=") s =
  shift (run_length is_space s)
        (rmatch (lit_ci "=") (skipn (run_length is_space s) s)).
Proof. apply rmatch_star_greedy. intros c t. apply equals_tail_no_space. Qed.

Lemma words_spaces_equals_tail s :
  rmatch (Star is_word :: Star is_space :: lit_ci "=") s =
  shift (run_length is_word s)
        (rmatch (Star is_space :: lit_ci "=") (skipn (run_length is_word s) s)).
Proof.
  apply rmatch_star_greedy. intros c t Hw.
  rewrite rmatch_star. rewrite (word_not_space c Hw).
  apply equals_tail_no_word, Hw.
Qed.

(** The event-handler pattern, run with backtracking, finds what the
    specification calls on<word-characters><optional whitespace>=. *)
Lemma rmatch_handler s : rmatch re_handler s = handler_at s.
Proof.
  unfold re_handler, handler_at. unfold lit_ci at 1.
  rewrite (rmatch_lit_ci _ _ s ascii_on).
  destruct (starts_with_ci (str "on") s); [| reflexivity].
  change (List.length (str "on")) with 2.
  generalize (skipn 2 s). intros rest.
  unfold plus. simpl app.
  destruct rest as [| c rest]; [reflexivity |].
  rewrite rmatch_one. simpl run_length.
  destruct (is_word c); [| reflexivity].
  rewrite words_spaces_equals_tail, spaces_equals_tail, rmatch_equals.
  simpl skipn.
  set (nw := run_length is_word rest).
  set (ns := run_length is_space (skipn nw rest)).
  destruct (skipn ns (skipn nw rest)) as [| d tl]; [reflexivity |].
  destruct (d =? EQUALS)%N; [| reflexivity].
  simpl. do 2 f_equal. lia.
Qed.

(** ** The replace calls, one by one *)

Lemma replace_remove r occ :
  (forall t, rmatch r t = occ t) ->
  forall s k, replace_from r [] k s = remove_from occ k s.
Proof.
  intros Hocc s. induction s as [| c s IH]; intros k.
  - simpl. destruct k; [destruct (rmatch r []) |]; reflexivity.
  - simpl. destruct k as [| k]; [| apply IH].
    rewrite Hocc. destruct (occ (c :: s)) as [[| n] |]; simpl; rewrite IH; reflexivity.
Qed.

Lemma replace_markup s : replace_all re_markup [] s = strip_markup s.
Proof.
  unfold replace_all, strip_markup, re_markup.
  induction s as [| c s IH]; [reflexivity |].
  simpl. destruct (is_markup c); simpl; rewrite IH; reflexivity.
Qed.

Lemma replace_javascript s :
  replace_all re_javascript [] s = remove_every javascript_at s.
Proof. apply replace_remove, rmatch_javascript. Qed.

Lemma replace_handler s :
  replace_all re_handler [] s = remove_every handler_at s.
Proof. apply replace_remove, rmatch_handler. Qed.

Lemma replace_linebreak s :
  replace_all re_linebreak [SP] s = linebreaks_to_spaces s.
Proof.
  unfold replace_all, linebreaks_to_spaces, re_linebreak.
  induction s as [| c s IH]; [reflexivity |].
  simpl. destruct (is_linebreak c); simpl; rewrite IH; reflexivity.
Qed.

Lemma rmatch_star_only p s : rmatch [Star p] s = Some (run_length p s).
Proof.
  induction s as [| c s IH]; [reflexivity |].
  rewrite rmatch_star, IH. simpl. destruct (p c); reflexivity.
Qed.

Lemma rmatch_spaces s :
  rmatch re_spaces s =
  match s with
  | c :: s' => if is_space c then Some (S (run_length is_space s')) else None
  | [] => None
  end.
Proof.
  destruct s as [| c s]; [reflexivity |].
  unfold re_spaces, plus. rewrite rmatch_one, rmatch_star_only.
  destruct (is_space c); reflexivity.
Qed.

Lemma replace_spaces_from s :
  replace_from re_spaces [SP] 0 s = collapse_from false s
  /\ replace_from re_spaces [SP] (run_length is_space s) s = collapse_from true s.
Proof.
  induction s as [| c s [IH0 IH1]]; [split; reflexivity |].
  assert (E0 : replace_from re_spaces [SP] 0 (c :: s) = collapse_from false (c :: s)).
  { cbn [replace_from]. rewrite rmatch_spaces. cbn [collapse_from].
    destruct (is_space c); simpl; [rewrite IH1 | rewrite IH0]; reflexivity. }
  split; [exact E0 |].
  cbn [run_length collapse_from]. destruct (is_space c) eqn:Hc.
  - cbn [replace_from]. exact IH1.
  - rewrite E0. cbn [collapse_from]. rewrite Hc. reflexivity.
Qed.

Lemma replace_spaces s : replace_all re_spaces [SP] s = collapse_whitespace s.
Proof. apply replace_spaces_from. Qed.

(** The chain of the source is the chain of the specification. *)
Lemma clean_chain_spec s : clean_chain s = firstn 2000 (cleaned_trimmed s).
Proof.
  unfold clean_chain, cleaned_trimmed, substring0, MAX_LENGTH.
  rewrite replace_markup, replace_javascript, replace_handler,
    replace_linebreak, replace_spaces.
  reflexivity.
Qed.

Lemma sanitizeInput_spec v : sanitizeInput v = sanitize_spec v.
Proof.
  destruct v as [| | b | n | s |]; try reflexivity; try (destruct b; reflexivity).
  - unfold sanitizeInput. destruct (truthy (JNum n)); reflexivity.
  - destruct s as [| c s]; [reflexivity |].
    unfold sanitizeInput. simpl truthy. simpl orb. cbv iota.
    apply clean_chain_spec.
Qed.

Lemma sanitize_length v : List.length (sanitizeInput v) <= 2000.
Proof.
  rewrite sanitizeInput_spec.
  destruct v; unfold sanitize_spec; try apply firstn_le_length; apply Nat.le_0_l.
Qed.

(** ** Trimming and truncation *)

Lemma trim_start_snoc a c :
  is_space c = false -> trim_start (a ++ [c]) = trim_start a ++ [c].
Proof.
  intros Hc. induction a as [| x a IH]; simpl.
  - rewrite Hc. reflexivity.
  - destruct (is_space x); [exact IH | reflexivity].
Qed.

Lemma trim_end_cons c s :
  is_space c = false -> trim_end (c :: s) = c :: trim_end s.
Proof.
  intros Hc. unfold trim_end. simpl rev.
  rewrite (trim_start_snoc _ c Hc), rev_app_distr. reflexivity.
Qed.

Lemma trim_start_no_leading s : no_leading_space (trim_start s) = true.
Proof.
  induction s as [| c s IH]; [reflexivity |].
  simpl. destruct (is_space c) eqn:Hc; [exact IH |].
  simpl. rewrite Hc. reflexivity.
Qed.

Lemma trim_no_leading s : no_leading_space (trim s) = true.
Proof.
  unfold trim. pose proof (trim_start_no_leading s) as H.
  destruct (trim_start s) as [| c t]; [reflexivity |].
  simpl in H. apply negb_true_iff in H.
  rewrite (trim_end_cons c t H). simpl. rewrite H. reflexivity.
Qed.

Lemma trim_start_id s : no_leading_space s = true -> trim_start s = s.
Proof.
  destruct s as [| c s]; [reflexivity |].
  simpl. intros H. apply negb_true_iff in H. rewrite H. reflexivity.
Qed.

Lemma trim_id s :
  no_leading_space s = true -> no_leading_space (rev s) = true -> trim s = s.
Proof.
  intros H1 H2. unfold trim, trim_end.
  rewrite (trim_start_id _ H1), (trim_start_id _ H2). apply rev_involutive.
Qed.

Lemma firstn_no_leading n s :
  no_leading_space s = true -> no_leading_space (firstn n s) = true.
Proof. destruct n, s; simpl; auto. Qed.

Lemma firstn_snoc (c : N) n s :
  nth_error s n = Some c -> firstn (S n) s = firstn n s ++ [c].
Proof.
  revert s. induction n as [| n IH]; intros [| x s] H; try discriminate.
  - simpl in H. injection H as ->. reflexivity.
  - simpl in H.
    change (firstn (S (S n)) (x :: s)) with (x :: firstn (S n) s).
    rewrite (IH s H). reflexivity.
Qed.

Lemma sanitize_no_leading v : no_leading_space (sanitizeInput v) = true.
Proof.
  rewrite sanitizeInput_spec. destruct v; try reflexivity.
  unfold sanitize_spec. apply firstn_no_leading.
  unfold cleaned_trimmed. apply trim_no_leading.
Qed.

(** ** Claims about the sanitizer *)

(** C1: sanitize is total and always returns a string: the empty string for
    an absent or non-string input, and otherwise the result of, in order,
    removing the markup characters, removing every case-insensitive
    occurrence of the literal javascript: , removing every case-insensitive
    on<word-characters><optional whitespace>= pattern, replacing each
    carriage return and line feed by a space, collapsing each whitespace run
    to one space, trimming, and keeping the first 2000 code units; so the
    result is at most 2000 long, and the example of the specification
    evaluates to a b c. *)
Theorem sanitize_total_staged :
  (forall v : jsval,
      sanitizeInput v =
      match v with
      | JStr s =>
          firstn 2000
            (trim
              (collapse_whitespace
                (linebreaks_to_spaces
                  (remove_every handler_at
                    (remove_every javascript_at
                      (strip_markup s))))))
      | _ => []
      end)
  /\ (forall v : jsval, List.length (sanitizeInput v) <= 2000)
  /\ sanitize ([SP] ++ str "a   b" ++ [LF] ++ str " c ") = str "a b c".
Proof.
  split; [| split].
  - intros v. apply sanitizeInput_spec.
  - apply sanitize_length.
  - vm_compute. reflexivity.
Qed.

(** C9: truncation comes after trimming, so a result can end in whitespace:
    whenever the cleaned and trimmed text has a whitespace character at
    index 1999 the result ends with it, as for 1999 letters followed by a
    space and one more letter; what holds for every input is only that the
    result does not start with whitespace. *)
Theorem sanitize_may_end_in_space :
  (forall s c,
      nth_error (cleaned_trimmed s) 1999 = Some c ->
      is_space c = true ->
      sanitize s = firstn 1999 (cleaned_trimmed s) ++ [c]
      /\ no_leading_space (rev (sanitize s)) = false)
  /\ sanitize (repeat 97%N 1999 ++ [SP; 98%N]) = repeat 97%N 1999 ++ [SP]
  /\ (forall v : jsval, no_leading_space (sanitizeInput v) = true).
Proof.
  split; [| split].
  - intros s c Hn Hc.
    assert (E : sanitize s = firstn 1999 (cleaned_trimmed s) ++ [c]).
    { unfold sanitize. rewrite sanitizeInput_spec. unfold sanitize_spec.
      apply firstn_snoc, Hn. }
    split; [exact E |].
    rewrite E, rev_app_distr. simpl. rewrite Hc. reflexivity.
  - vm_compute. reflexivity.
  - apply sanitize_no_leading.
Qed.

Lemma sanitize_may_end_in_space_witness :
  sanitize (repeat 97%N 1999 ++ [SP; 98%N])
  = firstn 1999 (cleaned_trimmed (repeat 97%N 1999 ++ [SP; 98%N])) ++ [SP]
  /\ no_leading_space (rev (sanitize (repeat 97%N 1999 ++ [SP; 98%N]))) = false.
Proof.
  apply (proj1 sanitize_may_end_in_space (repeat 97%N 1999 ++ [SP; 98%N]) SP).
  - vm_compute. reflexivity.
  - reflexivity.
Defined.

(** ** Clean texts *)

Lemma to_space_space c : is_space (to_space c) = is_space c.
Proof. unfold to_space. destruct (is_space c) eqn:E; [reflexivity | exact E]. Qed.

Lemma to_space_idem c : to_space (to_space c) = to_space c.
Proof.
  unfold to_space at 1. rewrite to_space_space. unfold to_space.
  destruct (is_space c); reflexivity.
Qed.

Lemma stable_when_spaces_agree p :
  (forall c, is_space c = true -> p c = p SP) -> stable p.
Proof.
  intros H c. unfold to_space. destruct (is_space c) eqn:E; [| reflexivity].
  symmetry. apply H, E.
Qed.

Lemma stable_space : stable is_space.
Proof. exact to_space_space. Qed.

Lemma stable_word : stable is_word.
Proof.
  apply stable_when_spaces_agree. intros c Hc. rewrite (space_not_word c Hc).
  reflexivity.
Qed.

Lemma stable_markup : stable is_markup.
Proof.
  apply stable_when_spaces_agree. intros c Hc. rewrite (space_not_markup c Hc).
  reflexivity.
Qed.

Lemma space_upper c : is_space c = true -> upper c = c.
Proof.
  intros Hc. unfold upper.
  destruct ((97 <=? c)%N && (c <=? 122)%N) eqn:E; [exfalso | reflexivity].
  unfold is_space in Hc. bool_arith.
Qed.

(** A literal whose canonical form is not whitespace is never matched by a
    whitespace character. *)
Lemma stable_ci l : is_space (upper l) = false -> stable (ci l).
Proof.
  intros Hl. apply stable_when_spaces_agree. intros c Hc.
  unfold ci. rewrite (space_upper c Hc), (space_upper SP space_is_space).
  assert (E : forall d, is_space d = true -> (d =? upper l)%N = false).
  { intros d Hd. apply N.eqb_neq. intros ->. rewrite Hd in Hl. discriminate. }
  rewrite (E c Hc), (E SP space_is_space), !andb_false_r. reflexivity.
Qed.

Lemma rmatch_stable r :
  Forall atom_stable r ->
  forall s, rmatch r (List.map to_space s) = rmatch r s.
Proof.
  induction 1 as [| a r Ha Hr IH]; intros s; [reflexivity |].
  destruct a as [p | p]; simpl in Ha.
  - destruct s as [| c s]; [reflexivity |].
    simpl List.map. rewrite !rmatch_one, Ha, IH. reflexivity.
  - induction s as [| c s IHs].
    + simpl List.map. rewrite !rmatch_star. apply (IH []).
    + rewrite (rmatch_star p r (c :: s)).
      rewrite (rmatch_star p r (List.map to_space (c :: s))).
      simpl List.map. cbv iota. rewrite Ha, IHs.
      change (to_space c :: List.map to_space s) with (List.map to_space (c :: s)).
      rewrite IH. reflexivity.
Qed.

Lemma stable_lit_ci l :
  Forall (fun a => is_space (upper a) = false) l ->
  Forall atom_stable (List.map (fun c => One (ci c)) l).
Proof.
  induction 1 as [| a l Ha Hl IH]; constructor; [| exact IH].
  apply stable_ci, Ha.
Qed.

Lemma stable_javascript : Forall atom_stable re_javascript.
Proof. apply stable_lit_ci. repeat constructor. Qed.

Lemma stable_handler : Forall atom_stable re_handler.
Proof.
  unfold re_handler.
  apply Forall_app. split; [apply stable_lit_ci; repeat constructor |].
  apply Forall_app. split; [repeat constructor; exact stable_word |].
  apply Forall_app. split; [repeat constructor; exact stable_space |].
  apply stable_lit_ci. repeat constructor.
Qed.

Lemma javascript_at_stable s :
  javascript_at (List.map to_space s) = javascript_at s.
Proof. rewrite <- !rmatch_javascript. apply rmatch_stable, stable_javascript. Qed.

Lemma handler_at_stable s :
  handler_at (List.map to_space s) = handler_at s.
Proof. rewrite <- !rmatch_handler. apply rmatch_stable, stable_handler. Qed.

Lemma nowhere_stable occ :
  (forall t, occ (List.map to_space t) = occ t) ->
  forall s, nowhere occ (List.map to_space s) = nowhere occ s.
Proof.
  intros Hocc s. induction s as [| c s IH]; [reflexivity |].
  change (List.map to_space (c :: s)) with (to_space c :: List.map to_space s).
  cbn [nowhere].
  change (to_space c :: List.map to_space s) with (List.map to_space (c :: s)).
  rewrite Hocc, IH. reflexivity.
Qed.

Lemma strip_markup_id s :
  forallb (fun c => negb (is_markup c)) s = true -> strip_markup s = s.
Proof.
  unfold strip_markup. induction s as [| c s IH]; [reflexivity |].
  simpl. intros H. apply andb_true_iff in H. destruct H as [Hc Hs].
  rewrite Hc, (IH Hs). reflexivity.
Qed.

Lemma remove_every_id occ s : nowhere occ s = true -> remove_every occ s = s.
Proof.
  unfold remove_every. induction s as [| c s IH]; [reflexivity |].
  cbn [nowhere remove_from]. destruct (occ (c :: s)); [discriminate |].
  intros H. rewrite (IH H). reflexivity.
Qed.

Lemma linebreaks_id s :
  forallb (fun c => negb (is_linebreak c)) s = true -> linebreaks_to_spaces s = s.
Proof.
  unfold linebreaks_to_spaces. induction s as [| c s IH]; [reflexivity |].
  simpl. intros H. apply andb_true_iff in H. destruct H as [Hc Hs].
  apply negb_true_iff in Hc. rewrite Hc, (IH Hs). reflexivity.
Qed.

Lemma collapse_after_space s :
  no_leading_space s = true -> collapse_from true s = collapse_from false s.
Proof.
  destruct s as [| c s]; [reflexivity |].
  simpl. intros H. apply negb_true_iff in H. rewrite H. reflexivity.
Qed.

Lemma collapse_single s :
  no_repeated_space s = true -> collapse_whitespace s = List.map to_space s.
Proof.
  unfold collapse_whitespace. induction s as [| c s IH]; [reflexivity |].
  cbn [no_repeated_space collapse_from List.map]. unfold to_space at 1.
  destruct s as [| d s].
  - intros _. destruct (is_space c); reflexivity.
  - intros H. apply andb_true_iff in H. destruct H as [Hcd Hs].
    destruct (is_space c) eqn:Hc.
    + rewrite collapse_after_space, (IH Hs); [reflexivity |].
      simpl in Hcd. simpl. exact Hcd.
    + rewrite (IH Hs). reflexivity.
Qed.

Lemma no_leading_map s :
  no_leading_space (List.map to_space s) = no_leading_space s.
Proof.
  destruct s as [| c s]; [reflexivity |].
  cbn [List.map no_leading_space]. rewrite to_space_space. reflexivity.
Qed.

Lemma no_repeated_map s :
  no_repeated_space (List.map to_space s) = no_repeated_space s.
Proof.
  induction s as [| c s IH]; [reflexivity |].
  destruct s as [| d s]; [reflexivity |].
  change (no_repeated_space (List.map to_space (c :: d :: s)))
    with (negb (is_space (to_space c) && is_space (to_space d))
          && no_repeated_space (List.map to_space (d :: s))).
  rewrite IH, !to_space_space. reflexivity.
Qed.

Lemma forallb_map_stable p s :
  stable p ->
  forallb (fun c => negb (p c)) (List.map to_space s)
  = forallb (fun c => negb (p c)) s.
Proof.
  intros Hp. induction s as [| c s IH]; [reflexivity |].
  cbn [List.map forallb]. rewrite Hp, IH. reflexivity.
Qed.

Lemma to_space_no_linebreak c : is_linebreak (to_space c) = false.
Proof.
  unfold to_space. destruct (is_space c) eqn:Hc; [reflexivity |].
  destruct (is_linebreak c) eqn:E; [| reflexivity].
  rewrite (linebreak_is_space c E) in Hc. discriminate.
Qed.

Lemma no_linebreak_map s :
  forallb (fun c => negb (is_linebreak c)) (List.map to_space s) = true.
Proof.
  induction s as [| c s IH]; [reflexivity |].
  cbn [List.map forallb]. rewrite to_space_no_linebreak, IH. reflexivity.
Qed.

Ltac split_clean H :=
  unfold already_clean in H;
  repeat (apply andb_true_iff in H;
          let H' := fresh "Hclean" in destruct H as [H H']).

(** On a clean text the sanitizer only turns whitespace characters into
    spaces. *)
Lemma sanitize_clean s :
  already_clean s = true -> sanitize s = List.map to_space s.
Proof.
  intros H. split_clean H.
  unfold sanitize. rewrite sanitizeInput_spec.
  unfold sanitize_spec, cleaned_trimmed.
  rewrite (strip_markup_id s H).
  rewrite (remove_every_id javascript_at s Hclean5).
  rewrite (remove_every_id handler_at s Hclean4).
  rewrite (linebreaks_id s Hclean3).
  rewrite (collapse_single s Hclean2).
  rewrite trim_id.
  - apply firstn_all2. rewrite length_map.
    apply Nat.leb_le in Hclean. exact Hclean.
  - rewrite no_leading_map. exact Hclean1.
  - rewrite <- map_rev, no_leading_map. exact Hclean0.
Qed.

Lemma clean_to_space s :
  already_clean s = true -> already_clean (List.map to_space s) = true.
Proof.
  intros H. split_clean H. unfold already_clean.
  rewrite (forallb_map_stable is_markup s stable_markup), H.
  rewrite (nowhere_stable javascript_at javascript_at_stable), Hclean5.
  rewrite (nowhere_stable handler_at handler_at_stable), Hclean4.
  rewrite no_linebreak_map, no_repeated_map, Hclean2.
  rewrite no_leading_map, Hclean1.
  rewrite <- map_rev, no_leading_map, Hclean0.
  rewrite length_map, Hclean. reflexivity.
Qed.

(** C7: on a text that is already clean (none of the markup characters, no
    javascript: literal, no on<word>= pattern, no line break, no repeated,
    leading or trailing whitespace, at most 2000 code units), ASCII or not,
    sanitizing twice gives what sanitizing once gives. *)
Theorem sanitize_idempotent_on_clean (s : jsstring) :
  already_clean s = true ->
  sanitize (sanitize s) = sanitize s.
Proof.
  intros H.
  rewrite (sanitize_clean s H).
  rewrite (sanitize_clean _ (clean_to_space s H)).
  rewrite map_map. apply map_ext. exact to_space_idem.
Qed.

Lemma sanitize_idempotent_on_clean_witness :
  already_clean (str "a tale of two cities") = true
  /\ sanitize (sanitize (str "a tale of two cities"))
     = sanitize (str "a tale of two cities").
Proof.
  split; [reflexivity |].
  apply (sanitize_idempotent_on_clean (str "a tale of two cities")).
  reflexivity.
Defined.

(** ** Running the handlers *)

Lemma jseqb_eq a b : jseqb a b = true <-> a = b.
Proof.
  unfold jseqb. destruct (list_eq_dec N.eq_dec a b); split; congruence.
Qed.


Lemma jseqb_refl a : jseqb a a = true.
Proof. apply jseqb_eq. reflexivity. Qed.

(** Unfold the handlers and the monad, leaving strings, the sanitizer and
    the upstream services folded. *)
Ltac unfold_handlers :=
  cbv beta iota zeta delta
    [respond run handler function_handler server_handler
     generate_function_body generate_legacy_body generate_server_body
     generate_voice_body process_text_body extract_and_process_body
     catch_generic error_with_details synthesize generate read_stream
     base64ToGeminiFormat
     trim_or_empty cors_allow_list cors_any_origin method_check
     bind ret throw return_ try_catch emit setHeader set_status send json end_
     headersSent console_error initial
     status headers sent trace fst snd negb orb andb].

Ltac case_step :=
  match goal with
  | |- context [match ?x with _ => _ end] =>
      is_var x; destruct x
  | |- context [if ?x then _ else _] =>
      lazymatch x with context [match _ with _ => _ end] => fail | _ => idtac end;
      destruct x eqn:?
  | |- context [match ?x with _ => _ end] =>
      lazymatch x with context [match _ with _ => _ end] => fail | _ => idtac end;
      destruct x eqn:?
  end; unfold_handlers.

Ltac run_cases := unfold_handlers; repeat case_step.

Ltac in_trace H :=
  cbn [In] in H;
  repeat match type of H with
         | _ \/ _ => destruct H as [H | H]
         end;
  try contradiction; try discriminate H.

Lemma generate_inj m1 i1 m2 i2 :
  Generate m1 i1 = Generate m2 i2 -> m1 = m2 /\ i1 = i2.
Proof. intros H. injection H. auto. Qed.

Lemma synthesize_inj v1 t1 v2 t2 :
  Synthesize v1 t1 = Synthesize v2 t2 -> v1 = v2 /\ t1 = t2.
Proof. intros H. injection H. auto. Qed.

Lemma vision_inj p1 d1 m1 p2 d2 m2 :
  Vision p1 d1 m1 = Vision p2 d2 m2 -> p1 = p2 /\ d1 = d2 /\ m1 = m2.
Proof. intros H. injection H. auto. Qed.

Lemma prompt_inj p1 p2 : Prompt p1 = Prompt p2 -> p1 = p2.
Proof. intros H. injection H. auto. Qed.

(** Identify the call found in the trace with the call whose result is
    known. *)
Ltac same_call :=
  repeat match goal with
         | H : Generate _ _ = Generate _ _ |- _ =>
             apply generate_inj in H; destruct H as [? ?]; subst
         | H : Synthesize _ _ = Synthesize _ _ |- _ =>
             apply synthesize_inj in H; destruct H as [? ?]; subst
         | H : Vision _ _ _ = Vision _ _ _ |- _ =>
             apply vision_inj in H; destruct H as (? & ? & ?); subst
         | H : Prompt _ = Prompt _ |- _ => apply prompt_inj in H; subst
         | H : Prompt _ = Vision _ _ _ |- _ => discriminate H
         | H : Vision _ _ _ = Prompt _ |- _ => discriminate H
         | H1 : generateContent ?w ?m ?i = _,
           H2 : generateContent ?w ?m ?i = _ |- _ =>
             rewrite H1 in H2;
             first [ discriminate H2 | injection H2; clear H2; intros; subst ]
         | H1 : textToSpeech ?w ?v ?t = _,
           H2 : textToSpeech ?w ?v ?t = _ |- _ =>
             rewrite H1 in H2;
             first [ discriminate H2 | injection H2; clear H2; intros; subst ]
         end.

(** ** Claims about the handlers *)



Ltac blank_text :=
  repeat match goal with
         | Ht : trim ?t = [], H : context [trim ?t] |- _ => rewrite Ht in H
         end;
  try discriminate.

(** C6: in both extract-and-process handlers, when the vision extraction
    call returns empty or whitespace-only text, the response is the 400
    user-input error saying that no text could be extracted, not a 500, and
    no narrative-generation call is made. *)
Theorem blank_extraction_is_user_error
    (e : endpoint) (w : world) (req : request)
    (model : string) (p d m t : jsstring) :
  e = Function RExtractAndProcess \/ e = Server RExtractAndProcess ->
  In (Generate model (Vision p d m)) (trace (respond e w req)) ->
  generateContent w model (Vision p d m) = Returns t ->
  trim t = [] ->
  status (respond e w req) = 400
  /\ sent (respond e w req) = Some (Json [("error"%string, ERR_NO_TEXT_EXTRACTED)])
  /\ (forall m' p', ~ In (Generate m' (Prompt p')) (trace (respond e w req))).
Proof.
  intros He Hin Hgen Htrim.
  destruct He as [-> | ->]; revert Hin; run_cases; intros Hin; in_trace Hin;
    same_call; blank_text;
    (split; [reflexivity | split; [reflexivity |]]);
    intros m' p' Hin'; in_trace Hin'.
Qed.

Lemma blank_extraction_is_user_error_witness :
  status (respond (Server RExtractAndProcess) (healthy [SP; LF; TAB])
            (post JUndefined (JStr (str "data:image/png;base64,iVBORw0KGgo=")))) = 400.
Proof.
  refine (proj1 (blank_extraction_is_user_error
                   (Server RExtractAndProcess) (healthy [SP; LF; TAB])
                   (post JUndefined (JStr (str "data:image/png;base64,iVBORw0KGgo=")))
                   "gemini-2.0-flash" EXTRACT_PROMPT (str "iVBORw0KGgo=")
                   (str "image/png") [SP; LF; TAB] _ _ _ _)).
  - right. reflexivity.
  - vm_compute. left. reflexivity.
  - reflexivity.
  - reflexivity.
Defined.

(** C10: a successful extract-and-process response carries in extractedText
    the text exactly as the extraction call returned it, and the only
    narrative prompt sent upstream embeds the sanitized copy of that text;
    the returned text can hold markup characters, line breaks and more than
    2000 code units, and then differs from what was put in the prompt. *)
Theorem extracted_text_is_returned_raw :
  (forall (e : endpoint) (w : world) (req : request) fields,
      e = Function RExtractAndProcess \/ e = Server RExtractAndProcess ->
      status (respond e w req) = 200 ->
      sent (respond e w req) = Some (Json fields) ->
      exists vm data mime raw story,
        In (Generate vm (Vision EXTRACT_PROMPT data mime)) (trace (respond e w req))
        /\ generateContent w vm (Vision EXTRACT_PROMPT data mime) = Returns raw
        /\ generateContent w "gemini-2.0-flash"
             (Prompt (image_story_prompt (sanitize raw))) = Returns story
        /\ fields = [("extractedText"%string, raw); ("processedStory"%string, story)]
        /\ (forall m' p',
               In (Generate m' (Prompt p')) (trace (respond e w req)) ->
               p' = image_story_prompt (sanitize raw)))
  /\ (json_field "extractedText"
        (respond (Function RExtractAndProcess) (healthy long_markup)
           (post JUndefined (JStr (str "data:image/png;base64,iVBORw0KGgo="))))
      = Some long_markup
      /\ In LT long_markup /\ In SQUOTE long_markup /\ In LF long_markup
      /\ 2000 < List.length long_markup
      /\ sanitize long_markup <> long_markup).
Proof.
  split.
  - intros e w req fields He.
    destruct He as [-> | ->]; run_cases; intros Hst Hsent; try discriminate;
      apply (f_equal (fun o => match o with Some (Json f) => f | _ => [] end)) in Hsent;
      cbv beta iota in Hsent; subst fields;
      (do 5 eexists; split; [right; left; reflexivity |];
       split; [eassumption |]; split; [eassumption |]; split; [reflexivity |]);
      intros m' p' Hin; in_trace Hin; same_call; reflexivity.
  - split; [vm_compute; reflexivity |].
    split; [left; reflexivity |].
    split; [do 4 right; left; reflexivity |].
    split; [apply in_or_app; right; left; reflexivity |].
    split; [apply Nat.leb_le; vm_compute; reflexivity |].
    intros H. apply (f_equal (@List.length N)) in H. vm_compute in H. discriminate H.
Qed.

Lemma extracted_text_is_returned_raw_witness :
  exists vm data mime raw story,
    In (Generate vm (Vision EXTRACT_PROMPT data mime))
       (trace (respond (Server RExtractAndProcess) (healthy long_markup)
                 (post JUndefined (JStr (str "data:image/png;base64,iVBORw0KGgo=")))))
    /\ generateContent (healthy long_markup) vm (Vision EXTRACT_PROMPT data mime)
       = Returns raw
    /\ generateContent (healthy long_markup) "gemini-2.0-flash"
         (Prompt (image_story_prompt (sanitize raw))) = Returns story
    /\ [("extractedText"%string, long_markup);
        ("processedStory"%string, str "Once upon a time.")]
       = [("extractedText"%string, raw); ("processedStory"%string, story)]
    /\ (forall m' p',
           In (Generate m' (Prompt p'))
              (trace (respond (Server RExtractAndProcess) (healthy long_markup)
                        (post JUndefined (JStr (str "data:image/png;base64,iVBORw0KGgo="))))) ->
           p' = image_story_prompt (sanitize raw)).
Proof.
  apply (proj1 extracted_text_is_returned_raw (Server RExtractAndProcess)).
  - right. reflexivity.
  - vm_compute. reflexivity.
  - vm_compute. reflexivity.
Defined.

Lemma is_empty_nil s : is_empty s = true -> s = [].
Proof. destruct s; [reflexivity | discriminate]. Qed.

(** Close a leaf of a case analysis whose conditions contradict what is
    known of the text. *)
Ltac text_facts :=
  repeat match goal with
         | H : JStr _ = JStr _ |- _ => injection H; clear H; intros; subst
         | H : is_empty ?x = true |- _ => apply is_empty_nil in H
         | H : ?x = [], H' : ?x <> [] |- _ => contradiction
         | H : ?x = [], H' : context [?x] |- _ => rewrite H in H'
         end;
  try discriminate; try congruence.

Lemma missing_text_rejected (e : endpoint) (w : world) (req : request) :
  reaches_body e req ->
  route_of e <> RExtractAndProcess ->
  missing (text req) = true \/ blank (text req) = true ->
  status (respond e w req) = 400
  /\ sent (respond e w req)
     = Some (Json [("error"%string, required_message (route_of e))])
  /\ external_calls (respond e w req) = [].
Proof.
  intros Hb Hr Ht. revert Ht.
  destruct e as [r | r |]; try destruct r; cbn [reaches_body] in Hb;
    try (exfalso; apply Hr; reflexivity);
    unfold_handlers; try (rewrite Hb; change (jseqb POST OPTIONS) with false;
                          rewrite jseqb_refl);
    repeat case_step; cbn [missing blank];
    intros [Ht | Ht]; text_facts;
    repeat split; reflexivity.
Qed.

Lemma missing_image_rejected (e : endpoint) (w : world) (req : request) :
  reaches_body e req ->
  route_of e = RExtractAndProcess ->
  truthy (image req) = false ->
  status (respond e w req) = 400
  /\ sent (respond e w req) = Some (Json [("error"%string, ERR_IMAGE_REQUIRED)])
  /\ external_calls (respond e w req) = [].
Proof.
  intros Hb Hr Ht.
  destruct e as [r | r |]; try destruct r; cbn [reaches_body] in Hb;
    try discriminate Hr;
    unfold_handlers; try (rewrite Hb; change (jseqb POST OPTIONS) with false;
                          rewrite jseqb_refl);
    rewrite Ht; repeat case_step; repeat split; reflexivity.
Qed.

Lemma emptied_text_rejected (e : endpoint) (w : world) (req : request) msg s :
  reaches_body e req ->
  invalid_message e = Some msg ->
  text req = JStr s ->
  trim s <> [] ->
  sanitize (trim s) = [] ->
  status (respond e w req) = 400
  /\ sent (respond e w req) = Some (Json [("error"%string, msg)])
  /\ msg <> required_message (route_of e)
  /\ external_calls (respond e w req) = [].
Proof.
  intros Hb Hm Ht Hne Hs. unfold sanitize in Hs.
  destruct e as [r | r |]; try destruct r; cbn [reaches_body] in Hb;
    try discriminate Hm;
    cbn [invalid_message] in Hm; injection Hm; clear Hm; intros <-;
    unfold_handlers; try (rewrite Hb; change (jseqb POST OPTIONS) with false;
                          rewrite jseqb_refl);
    rewrite Ht; unfold_handlers; rewrite Hs; unfold_handlers;
    repeat case_step; text_facts;
    (split; [reflexivity | split; [reflexivity | split; [| reflexivity]]]);
    intros E; vm_compute in E; discriminate E.
Qed.

(** C5, as the code has it: in every handler that requires text, a request
    whose text is missing (absent or null) or blank (empty or whitespace
    only) gets the 400 JSON error of the route and no upstream call is made;
    in the extract-and-process handlers a request whose image is missing or
    empty (any falsy value) gets the 400 JSON error and no upstream call is
    made; and in the handlers that sanitize the text field, a text that is
    not blank but sanitizes to the empty string gets a 400 JSON error with a
    different message, again without any upstream call. *)
Theorem required_field_rejected (e : endpoint) (w : world) (req : request) :
  reaches_body e req ->
  (route_of e <> RExtractAndProcess ->
   missing (text req) = true \/ blank (text req) = true ->
   status (respond e w req) = 400
   /\ sent (respond e w req)
      = Some (Json [("error"%string, required_message (route_of e))])
   /\ external_calls (respond e w req) = [])
  /\ (route_of e = RExtractAndProcess ->
      truthy (image req) = false ->
      status (respond e w req) = 400
      /\ sent (respond e w req)
         = Some (Json [("error"%string, ERR_IMAGE_REQUIRED)])
      /\ external_calls (respond e w req) = [])
  /\ (forall msg s,
         invalid_message e = Some msg ->
         text req = JStr s ->
         trim s <> [] ->
         sanitize (trim s) = [] ->
         status (respond e w req) = 400
         /\ sent (respond e w req) = Some (Json [("error"%string, msg)])
         /\ msg <> required_message (route_of e)
         /\ external_calls (respond e w req) = []).
Proof.
  intros Hb. split; [| split].
  - apply missing_text_rejected, Hb.
  - apply missing_image_rejected, Hb.
  - intros msg s. apply emptied_text_rejected, Hb.
Qed.

Lemma required_field_rejected_witness :
  status (respond (Function RProcessText) (healthy [])
            (post (JStr [SP; TAB]) JUndefined)) = 400
  /\ status (respond (Server RExtractAndProcess) (healthy [])
               (post JUndefined (JStr []))) = 400
  /\ sent (respond (Server RGenerateVoice) (healthy [])
             (post (JStr (str " <> ")) JUndefined))
     = Some (Json [("error"%string, ERR_VOICE_INVALID)]).
Proof.
  split; [| split].
  - refine (proj1 (proj1 (required_field_rejected (Function RProcessText) (healthy [])
                            (post (JStr [SP; TAB]) JUndefined) eq_refl) _ _)).
    + discriminate.
    + right. reflexivity.
  - refine (proj1 (proj1 (proj2 (required_field_rejected (Server RExtractAndProcess)
                                   (healthy []) (post JUndefined (JStr [])) I))
                     eq_refl eq_refl)).
  - refine (proj1 (proj2 (proj2 (proj2 (required_field_rejected (Server RGenerateVoice)
                                          (healthy [])
                                          (post (JStr (str " <> ")) JUndefined) I))
                            ERR_VOICE_INVALID (str " <> ") eq_refl eq_refl _ eq_refl))).
    vm_compute. discriminate.
Defined.

(** C5 as stated fails for a blank image: a whitespace-only image string
    passes the presence check of the extract-and-process handler, the
    vision call and the narrative call are made, and the response is 200. *)
Lemma blank_image_is_forwarded :
  blank (JStr [SP]) = true
  /\ status (respond (Function RExtractAndProcess) (healthy (str "hello"))
               (post JUndefined (JStr [SP]))) = 200
  /\ external_calls (respond (Function RExtractAndProcess) (healthy (str "hello"))
                       (post JUndefined (JStr [SP])))
     = [Generate "gemini-2.0-flash" (Prompt (image_story_prompt (str "hello")));
        Generate "gemini-1.5-pro" (Vision EXTRACT_PROMPT [SP] (str "image/png"))].
Proof. vm_compute. repeat split; reflexivity. Qed.

Lemma synthesis_outcome (e : endpoint) (w : world) (req : request) v t :
  synthesizes e = true ->
  In (Synthesize v t) (trace (respond e w req)) ->
  tts_outcome (textToSpeech w v t) (respond e w req).
Proof.
  intros He.
  destruct e as [r | r |]; try destruct r; try discriminate He; clear He;
    run_cases; intros Hin; in_trace Hin; same_call; try discriminate;
    repeat match goal with
           | H : textToSpeech _ _ _ = _ |- _ => rewrite H; clear H
           | H : closing _ = _ |- _ => rewrite H; clear H
           | H : Nat.eqb _ _ = _ |- _ => rewrite H; clear H
           | |- _ => progress cbn [tts_outcome]
           end;
    unfold failed_with; repeat split; reflexivity.
Qed.


Lemma length_zero_chunks (l : list (list Byte.byte)) :
  Nat.eqb (List.length l) 0 = true <-> l = [].
Proof.
  destruct l; simpl; split; intros H; try reflexivity; discriminate H.
Qed.




(** The handlers with the fixed catch clause answer every failure with the
    same message. *)
Lemma generic_failure (e : endpoint) (w : world) (req : request) :
  route_of e <> RGenerate ->
  status (respond e w req) = 500 ->
  sent (respond e w req) = Some (Json [("error"%string, ERR_GENERIC)]).
Proof.
  intros Hr.
  destruct e as [r | r |]; try destruct r;
    try (exfalso; apply Hr; reflexivity);
    run_cases; intros Hst; try discriminate Hst; reflexivity.
Qed.

(** C2, at a failing input: when the generation service raises an error
    for a POST to /api/generate, the function handler and both servers put
    the wrapped upstream message in the error field, and with NODE_ENV set
    to development the function handler adds the stack in details; the
    process-text handler answers the same failure with the fixed message. *)
Theorem generate_echoes_upstream_error :
  sent (respond (Function RGenerate) (generation_down (Some DEVELOPMENT))
          (post (JStr (str "a cat")) JUndefined))
  = Some (Json [("error"%string, str "Failed to generate story: API key not valid");
                ("details"%string,
                 str "Error: Failed to generate story: API key not valid"
                 ++ [LF] ++ str "    at handler")])
  /\ sent (respond (Server RGenerate) (generation_down None)
             (post (JStr (str "a cat")) JUndefined))
     = Some (Json [("error"%string, str "Failed to generate story: API key not valid")])
  /\ sent (respond Legacy (generation_down None)
             (post (JStr (str "a cat")) JUndefined))
     = Some (Json [("error"%string, str "Failed to generate story: API key not valid")])
  /\ sent (respond (Function RProcessText) (generation_down (Some DEVELOPMENT))
             (post (JStr (str "a cat")) JUndefined))
     = Some (Json [("error"%string, ERR_GENERIC)]).
Proof. vm_compute. repeat split; reflexivity. Qed.

(** Every narrative prompt sent by the handlers that sanitize embeds a
    sanitized text. *)
Lemma sanitizing_handlers_sanitize (e : endpoint) (w : world) (req : request) m p :
  e <> Function RGenerate -> e <> Legacy ->
  In (Generate m (Prompt p)) (trace (respond e w req)) ->
  exists raw,
    p = story_prompt (sanitize raw) \/ p = image_story_prompt (sanitize raw).
Proof.
  intros H1 H2.
  destruct e as [r | r |]; try destruct r; try contradiction;
    run_cases; intros Hin; in_trace Hin; same_call;
    eexists;
    lazymatch goal with
    | |- story_prompt _ = _ \/ _ => left; reflexivity
    | |- _ => right; reflexivity
    end.
Qed.

(** C3, at a failing input: for the text <b>hi</b> the function handler of
    /api/generate and the server of backend/index.js embed the text as it
    is in the prompt sent upstream, while the server with the allow-list
    embeds its sanitized form bhi/b. *)
Theorem generate_forwards_unsanitized_text :
  sanitize (str "<b>hi</b>") = str "bhi/b"
  /\ In (Generate "gemini-2.0-flash" (Prompt (story_prompt (str "<b>hi</b>"))))
        (trace (respond (Function RGenerate) (healthy [])
                  (post (JStr (str "<b>hi</b>")) JUndefined)))
  /\ In (Generate "gemini-2.0-flash" (Prompt (story_prompt (str "<b>hi</b>"))))
        (trace (respond Legacy (healthy [])
                  (post (JStr (str "<b>hi</b>")) JUndefined)))
  /\ In (Generate "gemini-2.0-flash" (Prompt (story_prompt (str "bhi/b"))))
        (trace (respond (Server RGenerate) (healthy [])
                  (post (JStr (str "<b>hi</b>")) JUndefined))).
Proof.
  split; [vm_compute; reflexivity |].
  split; [| split]; vm_compute; right; left; reflexivity.
Qed.

(** * Further properties of the code *)

(** ** What the sanitizer keeps and what it never produces *)

Lemma remove_from_sub (P : N -> Prop) occ s :
  Forall P s -> forall k, Forall P (remove_from occ k s).
Proof.
  induction 1 as [| c s Hc Hs IH]; intros k; [constructor |].
  cbn [remove_from]. destruct k as [| k]; [| apply IH].
  destruct (occ (c :: s)) as [[| n] |]; try (constructor; [exact Hc | apply IH]).
  apply IH.
Qed.

Lemma remove_from_length occ s : forall k,
  List.length (remove_from occ k s) <= List.length s.
Proof.
  induction s as [| c s IH]; intros k; [apply Nat.le_refl |].
  cbn [remove_from]. destruct k as [| k].
  - destruct (occ (c :: s)) as [[| n] |]; cbn [List.length];
      try (apply le_n_S, IH). apply Nat.le_le_succ_r, IH.
  - cbn [List.length]. apply Nat.le_le_succ_r, IH.
Qed.

Lemma collapse_from_sub (P : N -> Prop) s :
  P SP -> Forall P s -> forall b, Forall P (collapse_from b s).
Proof.
  intros Hsp. induction 1 as [| c s Hc Hs IH]; intros b; [constructor |].
  cbn [collapse_from]. destruct (is_space c).
  - destruct b; [apply IH | constructor; [exact Hsp | apply IH]].
  - constructor; [exact Hc | apply IH].
Qed.

Lemma collapse_from_length s : forall b,
  List.length (collapse_from b s) <= List.length s.
Proof.
  induction s as [| c s IH]; intros b; [apply Nat.le_refl |].
  cbn [collapse_from]. destruct (is_space c).
  - destruct b; cbn [List.length];
      [apply Nat.le_le_succ_r, IH | apply le_n_S, IH].
  - cbn [List.length]. apply le_n_S, IH.
Qed.

(** trim_start keeps a suffix, trim_end a prefix. *)
Lemma trim_start_suffix s : exists pre, s = pre ++ trim_start s.
Proof.
  induction s as [| c s [pre IH]]; [exists []; reflexivity |].
  cbn [trim_start]. destruct (is_space c).
  - exists (c :: pre). cbn [app]. rewrite <- IH. reflexivity.
  - exists []. reflexivity.
Qed.

Lemma trim_end_prefix s : exists post, s = trim_end s ++ post.
Proof.
  unfold trim_end. destruct (trim_start_suffix (rev s)) as [pre H].
  exists (rev pre). rewrite <- rev_app_distr, <- H. symmetry. apply rev_involutive.
Qed.

Lemma trim_infix s : exists pre post, s = pre ++ trim s ++ post.
Proof.
  unfold trim. destruct (trim_start_suffix s) as [pre H1].
  destruct (trim_end_prefix (trim_start s)) as [post H2].
  exists pre, post. rewrite <- H2. exact H1.
Qed.

Lemma trim_sub (P : N -> Prop) s : Forall P s -> Forall P (trim s).
Proof.
  intros H. destruct (trim_infix s) as (pre & post & E). rewrite E in H.
  apply Forall_app in H. destruct H as [_ H].
  apply Forall_app in H. apply H.
Qed.

Lemma trim_length s : List.length (trim s) <= List.length s.
Proof.
  destruct (trim_infix s) as (pre & post & E).
  rewrite E at 2. rewrite !length_app. lia.
Qed.

Lemma firstn_sub (P : N -> Prop) n s : Forall P s -> Forall P (firstn n s).
Proof.
  intros H. rewrite <- (firstn_skipn n s) in H. apply Forall_app in H. apply H.
Qed.

Lemma linebreaks_sub (P : N -> Prop) s :
  P SP -> Forall P s -> Forall P (linebreaks_to_spaces s).
Proof.
  intros Hsp. unfold linebreaks_to_spaces.
  induction 1 as [| c s Hc Hs IH]; [constructor |].
  cbn [List.map]. constructor; [| exact IH]. destruct (is_linebreak c); assumption.
Qed.

(** Whatever holds of a space and of every code unit that survives the first
    replace holds of every code unit of the result. *)
Lemma cleaned_trimmed_sub (P : N -> Prop) s :
  P SP -> Forall P (strip_markup s) -> Forall P (cleaned_trimmed s).
Proof.
  intros Hsp H. unfold cleaned_trimmed.
  apply trim_sub. unfold collapse_whitespace. apply collapse_from_sub; [exact Hsp |].
  apply linebreaks_sub; [exact Hsp |].
  unfold remove_every. apply remove_from_sub, remove_from_sub, H.
Qed.

Lemma strip_markup_clean s :
  Forall (fun c => is_markup c = false) (strip_markup s).
Proof.
  unfold strip_markup. apply Forall_forall. intros c Hc.
  apply filter_In in Hc. destruct Hc as [_ Hc]. apply negb_true_iff, Hc.
Qed.

Lemma strip_markup_sub (P : N -> Prop) s : Forall P s -> Forall P (strip_markup s).
Proof.
  intros H. unfold strip_markup. rewrite Forall_forall in *. intros c Hc.
  apply filter_In in Hc. apply H, Hc.
Qed.

Lemma sanitizeInput_no_markup (v : jsval) :
  Forall (fun c => is_markup c = false) (sanitizeInput v).
Proof.
  rewrite sanitizeInput_spec. destruct v; try constructor.
  unfold sanitize_spec. apply firstn_sub.
  apply cleaned_trimmed_sub; [reflexivity | apply strip_markup_clean].
Qed.

(** X1: the result of the sanitizer never holds a less-than, greater-than,
    double quote, single quote or backtick, whatever the input. *)
Theorem sanitized_has_no_markup (v : jsval) :
  Forall (fun c => is_markup c = false) (sanitizeInput v).
Proof. exact (sanitizeInput_no_markup v). Qed.

(** X3: the sanitizer only deletes code units or turns them into spaces: the
    result is no longer than the text, and each of its code units is a space
    or a code unit of the text. *)
Theorem sanitize_only_deletes (s : jsstring) :
  List.length (sanitize s) <= List.length s
  /\ Forall (fun c => c = SP \/ In c s) (sanitize s).
Proof.
  unfold sanitize. rewrite sanitizeInput_spec. unfold sanitize_spec. split.
  - rewrite length_firstn.
    apply (Nat.le_trans _ _ _ (Nat.le_min_r _ _)).
    unfold cleaned_trimmed.
    apply (Nat.le_trans _ _ _ (trim_length _)).
    apply (Nat.le_trans _ _ _ (collapse_from_length _ _)).
    unfold linebreaks_to_spaces. rewrite length_map.
    apply (Nat.le_trans _ _ _ (remove_from_length _ _ _)).
    apply (Nat.le_trans _ _ _ (remove_from_length _ _ _)).
    unfold strip_markup. apply filter_length_le.
  - apply firstn_sub, cleaned_trimmed_sub; [left; reflexivity |].
    apply strip_markup_sub, Forall_forall. intros c Hc. right. exact Hc.
Qed.

(** ** Whitespace of the result *)
Lemma no_repeated_cons c s :
  no_repeated_space (c :: s) = true -> no_repeated_space s = true.
Proof.
  destruct s as [| d s]; [reflexivity |].
  cbn [no_repeated_space]. intros H. apply andb_true_iff in H. apply H.
Qed.

Lemma no_repeated_app_r a b :
  no_repeated_space (a ++ b) = true -> no_repeated_space b = true.
Proof.
  induction a as [| c a IH]; [auto |].
  intros H. apply IH. apply (no_repeated_cons c). exact H.
Qed.

Lemma no_repeated_app_l a b :
  no_repeated_space (a ++ b) = true -> no_repeated_space a = true.
Proof.
  induction a as [| c a IH]; [reflexivity |].
  destruct a as [| d a]; [reflexivity |].
  cbn [app no_repeated_space]. intros H. apply andb_true_iff in H.
  destruct H as [H1 H2]. rewrite H1. apply IH. exact H2.
Qed.

(** After a space no space follows. *)
Lemma collapse_from_normal s : forall b,
  no_repeated_space (collapse_from b s) = true
  /\ no_repeated_space (SP :: collapse_from true s) = true.
Proof.
  induction s as [| c s IH]; intros b; [split; reflexivity |].
  destruct (IH true) as [IHt IHs]. destruct (IH false) as [IHf _].
  cbn [collapse_from]. destruct (is_space c) eqn:Hc.
  - split; [destruct b; assumption | assumption].
  - assert (H : no_repeated_space (c :: collapse_from false s) = true).
    { destruct (collapse_from false s) as [| d t] eqn:E; [reflexivity |].
      cbn [no_repeated_space]. rewrite Hc. cbn. exact IHf. }
    split; [exact H |].
    change (no_repeated_space (SP :: c :: collapse_from false s))
      with (negb (is_space SP && is_space c)
            && no_repeated_space (c :: collapse_from false s)).
    rewrite Hc, H. reflexivity.
Qed.

Lemma collapse_from_only_spaces s : forall b,
  Forall (fun c => is_space c = true -> c = SP) (collapse_from b s).
Proof.
  induction s as [| c s IH]; intros b; [constructor |].
  cbn [collapse_from]. destruct (is_space c) eqn:Hc.
  - destruct b; [apply IH | constructor; [reflexivity | apply IH]].
  - constructor; [| apply IH]. intros H. rewrite H in Hc. discriminate.
Qed.

(** X2: in the result of the sanitizer every whitespace code unit is a plain
    space (no tab, line break or other Unicode space survives) and no two
    spaces are adjacent, whatever the input. *)
Theorem sanitized_whitespace_is_normal (v : jsval) :
  Forall (fun c => is_space c = true -> c = SP) (sanitizeInput v)
  /\ no_repeated_space (sanitizeInput v) = true.
Proof.
  rewrite sanitizeInput_spec. destruct v; try (split; [constructor | reflexivity]).
  unfold sanitize_spec, cleaned_trimmed.
  set (t := linebreaks_to_spaces _).
  split.
  - apply firstn_sub, trim_sub, collapse_from_only_spaces.
  - destruct (trim_infix (collapse_whitespace t)) as (pre & post & E).
    pose proof (proj1 (collapse_from_normal t false)) as H.
    fold (collapse_whitespace t) in H. rewrite E in H.
    apply no_repeated_app_r, no_repeated_app_l in H.
    rewrite <- (firstn_skipn 2000 (trim (collapse_whitespace t))) in H.
    apply no_repeated_app_l in H. exact H.
Qed.

(** ** The data URL of an image *)
Lemma rmatch_lit l r s :
  rmatch (List.map (fun c => One (N.eqb c)) l ++ r) s =
  if starts_with l s
  then shift (List.length l) (rmatch r (skipn (List.length l) s))
  else None.
Proof.
  revert s. induction l as [| a l IH]; intros s.
  - cbn. destruct (rmatch r s); reflexivity.
  - destruct s as [| c s]; [reflexivity |].
    cbn [List.map app]. rewrite rmatch_one. cbn [starts_with].
    destruct (N.eqb a c); cbn [andb]; [| reflexivity].
    rewrite IH. destruct (starts_with l s); [| reflexivity].
    apply shift_S.
Qed.

Lemma starts_with_app l s : starts_with l (l ++ s) = true.
Proof.
  induction l as [| a l IH]; [reflexivity |].
  cbn [app starts_with]. rewrite N.eqb_refl, IH. reflexivity.
Qed.

Lemma lit_tail_no_word a l c t :
  is_word a = false -> is_word c = true ->
  rmatch (List.map (fun x => One (N.eqb x)) (a :: l)) (c :: t) = None.
Proof.
  intros Ha Hc. cbn [List.map]. rewrite rmatch_one.
  destruct (N.eqb a c) eqn:E; [| reflexivity].
  apply N.eqb_eq in E. subst. rewrite Hc in Ha. discriminate.
Qed.

(** A pattern made of a literal, a run of word characters and a literal that
    does not start with a word character, read without backtracking. *)
Lemma rmatch_literal_word_literal P a L s :
  is_word a = false ->
  rmatch (List.map (fun x => One (N.eqb x)) P ++ plus is_word
          ++ List.map (fun x => One (N.eqb x)) (a :: L)) s =
  if starts_with P s then
    match skipn (List.length P) s with
    | c :: s' =>
        if is_word c && starts_with (a :: L) (skipn (run_length is_word s') s')
        then Some (List.length P + S (run_length is_word s' + List.length (a :: L)))
        else None
    | [] => None
    end
  else None.
Proof.
  intros Ha. rewrite rmatch_lit.
  destruct (starts_with P s); [| reflexivity].
  destruct (skipn (List.length P) s) as [| c s']; [reflexivity |].
  unfold plus. cbn [app]. rewrite rmatch_one.
  destruct (is_word c); [| reflexivity]. cbn [andb].
  rewrite rmatch_star_greedy by (intros d t; apply lit_tail_no_word, Ha).
  rewrite <- (app_nil_r (List.map _ (a :: L))), rmatch_lit.
  destruct (starts_with (a :: L) (skipn (run_length is_word s') s')); [| reflexivity].
  cbn [rmatch shift option_map]. rewrite Nat.add_0_r. reflexivity.
Qed.

Lemma run_length_all p s :
  Forall (fun c => p c = true) (firstn (run_length p s) s).
Proof.
  induction s as [| c s IH]; [constructor |].
  cbn [run_length]. destruct (p c) eqn:E; [| constructor].
  cbn [firstn]. constructor; assumption.
Qed.

Lemma run_length_app p w rest :
  Forall (fun c => p c = true) w ->
  match rest with c :: _ => p c = false | [] => True end ->
  run_length p (w ++ rest) = List.length w.
Proof.
  intros Hw Hr. induction Hw as [| c w Hc Hw IH].
  - destruct rest as [| c rest]; [reflexivity |]. cbn. rewrite Hr. reflexivity.
  - cbn [app run_length List.length]. rewrite Hc, IH. reflexivity.
Qed.

Lemma skipn_length_app (a b : list N) : skipn (List.length a) (a ++ b) = b.
Proof. induction a; [reflexivity | assumption]. Qed.

Lemma firstn_length_app (a b : list N) : firstn (List.length a) (a ++ b) = a.
Proof. induction a as [| x a IH]; [reflexivity |]. cbn. rewrite IH. reflexivity. Qed.

Lemma rmatch_data_url s :
  rmatch re_data_url s =
  if starts_with (str "data:image/") s then
    match skipn 11 s with
    | c :: s' =>
        if is_word c && starts_with (str ";base64,") (skipn (run_length is_word s') s')
        then Some (11 + S (run_length is_word s' + 8))
        else None
    | [] => None
    end
  else None.
Proof. apply (rmatch_literal_word_literal (str "data:image/") 59%N (str "base64,")). reflexivity. Qed.

Lemma rmatch_data_mime s :
  rmatch re_data_mime s =
  if starts_with (str "data:image/") s then
    match skipn 11 s with
    | c :: s' =>
        if is_word c && starts_with (str ";base64") (skipn (run_length is_word s') s')
        then Some (11 + S (run_length is_word s' + 7))
        else None
    | [] => None
    end
  else None.
Proof. apply (rmatch_literal_word_literal (str "data:image/") 59%N (str "base64")). reflexivity. Qed.

Lemma skipn_data_prefix (x : list N) : skipn 11 (str "data:image/" ++ x) = x.
Proof. reflexivity. Qed.

(** X5: for a data URL data:image/<subtype>;base64,<data> whose subtype is a
    non-empty run of word characters, base64ToGeminiFormat yields the data
    alone and the MIME type image/<subtype>. *)
Theorem inlineData_of_data_url (w d : list N) :
  w <> [] ->
  Forall (fun c => is_word c = true) w ->
  inlineData (str "data:image/" ++ w ++ str ";base64," ++ d)
  = (d, str "image/" ++ w).
Proof.
  intros Hne Hw. destruct w as [| c w]; [contradiction |].
  inversion Hw as [| ? ? Hc Hw']; subst.
  unfold inlineData. rewrite rmatch_data_url, rmatch_data_mime.
  rewrite starts_with_app, !skipn_data_prefix.
  cbn [app]. rewrite Hc. cbn [andb].
  rewrite (run_length_app is_word w (str ";base64," ++ d) Hw') by reflexivity.
  rewrite skipn_length_app.
  rewrite starts_with_app.
  change (str ";base64," ++ d) with (str ";base64" ++ (44%N :: d)).
  rewrite starts_with_app.
  f_equal.
  - rewrite (Nat.add_comm 11), <- skipn_skipn.
    change (skipn 11 (str "data:image/" ++ c :: w ++ str ";base64" ++ 44%N :: d))
      with (c :: w ++ str ";base64," ++ d).
    cbn [skipn]. rewrite (Nat.add_comm _ 8), <- skipn_skipn, skipn_length_app.
    reflexivity.
  - f_equal.
    replace (11 + S (List.length w + 7) - 18) with (List.length (c :: w))
      by (cbn [List.length]; lia).
    change (skipn 11 (str "data:image/" ++ c :: w ++ str ";base64" ++ 44%N :: d))
      with ((c :: w) ++ str ";base64," ++ d).
    exact (firstn_length_app (c :: w) (str ";base64," ++ d)).
Qed.

(** X6: a string that does not start with data:image/ is forwarded whole with
    the MIME type image/png; for every string the MIME type is image/
    followed by a non-empty run of word characters, and the data is a suffix
    of the string. *)
Theorem inlineData_fallbacks (s : list N) :
  (starts_with (str "data:image/") s = false -> inlineData s = (s, str "image/png"))
  /\ (exists w,
         snd (inlineData s) = str "image/" ++ w
         /\ w <> []
         /\ Forall (fun c => is_word c = true) w)
  /\ (exists pre, s = pre ++ fst (inlineData s)).
Proof.
  unfold inlineData. rewrite rmatch_data_url, rmatch_data_mime.
  split; [| split].
  - intros H. rewrite H. reflexivity.
  - destruct (starts_with (str "data:image/") s);
      [| exists (str "png"); repeat split; [discriminate | repeat constructor]].
    destruct (skipn 11 s) as [| c s'];
      [exists (str "png"); repeat split; [discriminate | repeat constructor] |].
    destruct (is_word c) eqn:Hc;
      [| exists (str "png"); repeat split; [discriminate | repeat constructor]].
    cbn [andb].
    destruct (starts_with (str ";base64") (skipn (run_length is_word s') s'));
      [| exists (str "png"); repeat split; [discriminate | repeat constructor]].
    exists (c :: firstn (run_length is_word s') s'). cbn [snd].
    replace (11 + S (run_length is_word s' + 7) - 18) with (S (run_length is_word s'))
      by lia.
    repeat split; [discriminate |].
    constructor; [exact Hc | apply run_length_all].
  - cbn [fst].
    destruct (if starts_with (str "data:image/") s
              then match skipn 11 s with
                   | [] => None
                   | c :: s' =>
                       if is_word c
                          && starts_with (str ";base64,")
                               (skipn (run_length is_word s') s')
                       then Some (11 + S (run_length is_word s' + 8))
                       else None
                   end
              else None) as [n |].
    + exists (firstn n s). symmetry. apply firstn_skipn.
    + exists []. reflexivity.
Qed.

(** ** Every path of every handler *)
Lemma lookup_error_head v rest :
  lookup "error" (("error"%string, v) :: rest) = Some v.
Proof. reflexivity. Qed.

Lemma holds_elim (P : state -> Prop) st : holds P st -> P st.
Proof. exact (fun H => H). Qed.

(** State the goal about the final state once, then walk the handler. *)
Ltac walk e w req :=
  pattern (respond e w req); apply holds_elim; run_cases; unfold holds; cbv beta.

Ltac pick :=
  solve [ reflexivity | eassumption | exact I
        | apply jseqb_eq; assumption
        | f_equal; apply jseqb_eq; assumption
        | left; pick | right; pick | eexists; pick | split; pick ].

Ltac answered_leaf :=
  lazymatch goal with
  | |- (Some NoBody = _ /\ _) \/ _ =>
      left; split; [reflexivity |]; split; [reflexivity |];
      split; [eexists; reflexivity | apply jseqb_eq; assumption]
  | |- _ =>
      right; eexists; split; [reflexivity |];
      lazymatch goal with
      | |- (200 = 200 /\ _) \/ _ => left; split; reflexivity
      | |- _ =>
          right; split; [cbn [In]; auto 6 |];
          first [ left; reflexivity
                | right; split; [reflexivity |]; split; [reflexivity |];
                  f_equal; apply jseqb_eq; assumption ]
      end
  end.

(** X7: every handler answers every request: either the preflight answer of
    a function (status 200, no body, method OPTIONS), or a JSON object that
    is a success with status 200 and exactly the keys of the route, or an
    error with status 400, 405 or 500 and the key error alone, joined by
    details only on the generate route when NODE_ENV is development. *)
Theorem every_request_is_answered (e : endpoint) (w : world) (req : request) :
  (sent (respond e w req) = Some NoBody
   /\ status (respond e w req) = 200
   /\ (exists r, e = Function r)
   /\ method req = OPTIONS)
  \/ (exists fields,
         sent (respond e w req) = Some (Json fields)
         /\ ((status (respond e w req) = 200
              /\ List.map fst fields = success_keys (route_of e))
             \/ (In (status (respond e w req)) [400; 405; 500]
                 /\ (List.map fst fields = ["error"%string]
                     \/ (List.map fst fields = ["error"%string; "details"%string]
                         /\ route_of e = RGenerate
                         /\ NODE_ENV w = Some DEVELOPMENT))))).
Proof.
  destruct e as [r | r |]; try destruct r;
    match goal with |- context [respond ?e _ _] => walk e w req end;
    cbv beta iota delta [sent status]; answered_leaf.
Qed.

(** X8: the upstream calls of a request follow its route: process-text makes
    at most one generation call, generate-voice at most one speech call,
    extract-and-process a vision call then at most one generation call, and
    generate a generation call then at most one speech call whose text is
    the story that the generation call returned; the speech voice is the
    configured one or the default, and a function makes no call unless the
    method is POST. *)
Theorem upstream_calls_by_route (e : endpoint) (w : world) (req : request) :
  expected_calls e w (external_calls (respond e w req))
  /\ (external_calls (respond e w req) <> [] -> reaches_body e req).
Proof.
  destruct e as [r | r |]; try destruct r;
    match goal with |- context [respond ?e _ _] => walk e w req end;
    (split;
     [ unfold expected_calls, configured_voice;
       cbn [route_of external_calls filter is_external trace]; pick
     | cbn [external_calls filter is_external trace reaches_body];
       intros H; first [ pick | exfalso; apply H; reflexivity ] ]).
Qed.

(** ** The player decodes what the server encodes *)

Section Base64Facts.

Local Open Scope N_scope.

Example atob_examples :
  atob (str "SUQz") = Some [73; 68; 51]
  /\ atob (str "SQ==") = Some [73]
  /\ atob (str "SUQ") = Some [73; 68]
  /\ atob (str " S U Q = ") = Some [73; 68]
  /\ atob (str "SUQz=") = None
  /\ atob (str "S") = None
  /\ atob (str "SU-z") = None
  /\ atob [] = Some [].
Proof. vm_compute. repeat split; reflexivity. Qed.

Ltac div_lia := zify; Z.to_euclidean_division_equations; lia.

Lemma triple_ind (P : list Byte.byte -> Prop) :
  P [] -> (forall a, P [a]) -> (forall a b, P [a; b]) ->
  (forall a b c rest, P rest -> P (a :: b :: c :: rest)) ->
  forall l, P l.
Proof.
  intros H0 H1 H2 H3. fix IH 1.
  intros [| a [| b [| c rest]]]; [exact H0 | apply H1 | apply H2 |].
  apply H3, IH.
Qed.

Lemma byte_bound x : Byte.to_N x < 256.
Proof. pose proof (Byte.to_N_bounded x). lia. Qed.

Lemma base64_split bs : base64 bs = List.map b64_char (sextets bs) ++ padding bs.
Proof.
  induction bs as [| a | a b | a b c rest IH] using triple_ind; try reflexivity.
  change (base64 (a :: b :: c :: rest))
    with ([b64_char (Byte.to_N a / 4);
           b64_char ((Byte.to_N a mod 4) * 16 + Byte.to_N b / 16);
           b64_char ((Byte.to_N b mod 16) * 4 + Byte.to_N c / 64);
           b64_char (Byte.to_N c mod 64)] ++ base64 rest).
  rewrite IH. reflexivity.
Qed.

Lemma sextets_small bs : Forall (fun v => v < 64) (sextets bs).
Proof.
  induction bs as [| a | a b | a b c rest IH] using triple_ind.
  - constructor.
  - pose proof (byte_bound a). cbn [sextets]. repeat constructor; div_lia.
  - pose proof (byte_bound a). pose proof (byte_bound b).
    cbn [sextets]. repeat constructor; div_lia.
  - pose proof (byte_bound a). pose proof (byte_bound b). pose proof (byte_bound c).
    change (sextets (a :: b :: c :: rest))
      with ([Byte.to_N a / 4;
             (Byte.to_N a mod 4) * 16 + Byte.to_N b / 16;
             (Byte.to_N b mod 16) * 4 + Byte.to_N c / 64;
             Byte.to_N c mod 64] ++ sextets rest).
    apply Forall_app. split; [repeat constructor; div_lia | exact IH].
Qed.

Lemma decode_sextets_of bs : decode_sextets (sextets bs) = List.map Byte.to_N bs.
Proof.
  induction bs as [| a | a b | a b c rest IH] using triple_ind.
  - reflexivity.
  - pose proof (byte_bound a). cbn [sextets decode_sextets List.map].
    f_equal. div_lia.
  - pose proof (byte_bound a). pose proof (byte_bound b).
    cbn [sextets decode_sextets List.map]. repeat f_equal; div_lia.
  - pose proof (byte_bound a). pose proof (byte_bound b). pose proof (byte_bound c).
    change (sextets (a :: b :: c :: rest))
      with (Byte.to_N a / 4
            :: (Byte.to_N a mod 4) * 16 + Byte.to_N b / 16
            :: (Byte.to_N b mod 16) * 4 + Byte.to_N c / 64
            :: Byte.to_N c mod 64 :: sextets rest).
    cbn [decode_sextets List.map app]. rewrite IH. repeat f_equal; div_lia.
Qed.

Lemma b64_value_char i : i < 64 -> b64_value (b64_char i) = Some i.
Proof.
  intros Hi. unfold b64_char.
  destruct (i <? 26) eqn:E1; [| destruct (i <? 52) eqn:E2;
    [| destruct (i <? 62) eqn:E3; [| destruct (i =? 62) eqn:E4]]].
  - unfold b64_value.
    replace ((65 <=? 65 + i) && (65 + i <=? 90)) with true
      by (symmetry; apply andb_true_iff; split; apply N.leb_le; bool_arith).
    f_equal. lia.
  - unfold b64_value.
    replace ((65 <=? 97 + (i - 26)) && (97 + (i - 26) <=? 90)) with false
      by (symmetry; apply andb_false_iff; right; apply N.leb_gt; bool_arith).
    replace ((97 <=? 97 + (i - 26)) && (97 + (i - 26) <=? 122)) with true
      by (symmetry; apply andb_true_iff; split; apply N.leb_le; bool_arith).
    f_equal. bool_arith.
  - unfold b64_value.
    replace ((65 <=? 48 + (i - 52)) && (48 + (i - 52) <=? 90)) with false
      by (symmetry; apply andb_false_iff; left; apply N.leb_gt; bool_arith).
    replace ((97 <=? 48 + (i - 52)) && (48 + (i - 52) <=? 122)) with false
      by (symmetry; apply andb_false_iff; left; apply N.leb_gt; bool_arith).
    replace ((48 <=? 48 + (i - 52)) && (48 + (i - 52) <=? 57)) with true
      by (symmetry; apply andb_true_iff; split; apply N.leb_le; bool_arith).
    f_equal. bool_arith.
  - apply N.eqb_eq in E4. subst. reflexivity.
  - assert (i = 63) by bool_arith. subst. reflexivity.
Qed.

Lemma b64_char_not_equals i : b64_char i <> EQUALS.
Proof.
  unfold b64_char, EQUALS.
  destruct (i <? 26) eqn:E1; [bool_arith |].
  destruct (i <? 52) eqn:E2; [bool_arith |].
  destruct (i <? 62) eqn:E3; [bool_arith |].
  destruct (i =? 62); discriminate.
Qed.

Lemma b64_char_not_whitespace i : is_ascii_whitespace (b64_char i) = false.
Proof.
  unfold b64_char.
  destruct (i <? 26) eqn:E1; [| destruct (i <? 52) eqn:E2;
    [| destruct (i <? 62) eqn:E3; [| destruct (i =? 62); reflexivity]]];
    unfold is_ascii_whitespace;
    repeat (apply orb_false_iff; split); apply N.eqb_neq; bool_arith.
Qed.

Lemma values_of_chars sx :
  Forall (fun v => v < 64) sx -> values_of (List.map b64_char sx) = Some sx.
Proof.
  induction 1 as [| v sx Hv Hsx IH]; [reflexivity |].
  cbn [List.map values_of]. rewrite (b64_value_char v Hv), IH. reflexivity.
Qed.

Lemma padding_cases bs :
  padding bs = [] \/ padding bs = [EQUALS] \/ padding bs = [EQUALS; EQUALS].
Proof.
  induction bs as [| a | a b | a b c rest IH] using triple_ind; auto.
Qed.

Lemma base64_no_whitespace bs :
  filter (fun c => negb (is_ascii_whitespace c)) (base64 bs) = base64 bs.
Proof.
  apply forallb_filter_id. rewrite base64_split, forallb_app.
  apply andb_true_iff. split.
  - apply forallb_forall. intros c Hc. apply in_map_iff in Hc.
    destruct Hc as [i [<- _]]. rewrite b64_char_not_whitespace. reflexivity.
  - destruct (padding_cases bs) as [-> | [-> | ->]]; reflexivity.
Qed.

(** The text has four code units for each group of three bytes begun, the
    last group being padded. *)
Lemma base64_length bs :
  List.length (base64 bs) = (4 * Nat.div (List.length bs + 2) 3)%nat.
Proof.
  induction bs as [| a | a b | a b c rest IH] using triple_ind; try reflexivity.
  change (base64 (a :: b :: c :: rest))
    with ([b64_char (Byte.to_N a / 4);
           b64_char ((Byte.to_N a mod 4) * 16 + Byte.to_N b / 16);
           b64_char ((Byte.to_N b mod 16) * 4 + Byte.to_N c / 64);
           b64_char (Byte.to_N c mod 64)] ++ base64 rest).
  rewrite length_app, IH. cbn [List.length].
  replace (S (S (S (List.length rest))) + 2)%nat
    with (List.length rest + 2 + 1 * 3)%nat by lia.
  rewrite Nat.div_add by discriminate. lia.
Qed.

Lemma base64_length_mod bs : Nat.modulo (List.length (base64 bs)) 4 = 0%nat.
Proof.
  rewrite base64_length, Nat.mul_comm. apply Nat.Div0.mod_mul.
Qed.

Lemma sextets_length_mod bs :
  Nat.eqb (Nat.modulo (List.length (sextets bs)) 4) 1 = false.
Proof.
  induction bs as [| a | a b | a b c rest IH] using triple_ind; try reflexivity.
  change (sextets (a :: b :: c :: rest))
    with ([Byte.to_N a / 4;
           (Byte.to_N a mod 4) * 16 + Byte.to_N b / 16;
           (Byte.to_N b mod 16) * 4 + Byte.to_N c / 64;
           Byte.to_N c mod 64] ++ sextets rest).
  rewrite length_app. cbn [List.length].
  replace (4 + List.length (sextets rest))%nat
    with (List.length (sextets rest) + 1 * 4)%nat by lia.
  rewrite Nat.Div0.mod_add. exact IH.
Qed.

Lemma drop_padding_body body pad :
  Forall (fun c => c <> EQUALS) body ->
  pad = [] \/ pad = [EQUALS] \/ pad = [EQUALS; EQUALS] ->
  drop_padding (body ++ pad) = body.
Proof.
  intros Hb Hp.
  assert (Hhead : forall c, In c (rev body) -> (c =? EQUALS) = false).
  { intros c Hc. apply N.eqb_neq. rewrite Forall_forall in Hb. apply Hb.
    apply in_rev. exact Hc. }
  unfold drop_padding. destruct Hp as [-> | [-> | ->]].
  - rewrite app_nil_r. destruct (rev body) as [| c r] eqn:E; [reflexivity |].
    rewrite (Hhead c (or_introl eq_refl)). reflexivity.
  - rewrite rev_app_distr. cbn [rev app]. rewrite N.eqb_refl.
    destruct (rev body) as [| c r] eqn:E.
    + apply (f_equal (@rev N)) in E. rewrite rev_involutive in E. subst. reflexivity.
    + rewrite (Hhead c (or_introl eq_refl)), <- E. apply rev_involutive.
  - rewrite rev_app_distr. cbn [rev app]. rewrite !N.eqb_refl. apply rev_involutive.
Qed.

Lemma atob_base64 bs : atob (base64 bs) = Some (List.map Byte.to_N bs).
Proof.
  unfold atob. rewrite base64_no_whitespace, base64_length_mod.
  cbn [Nat.eqb]. rewrite base64_split, drop_padding_body.
  - rewrite length_map, sextets_length_mod.
    rewrite (values_of_chars _ (sextets_small bs)), decode_sextets_of. reflexivity.
  - apply Forall_forall. intros c Hc. apply in_map_iff in Hc.
    destruct Hc as [i [<- _]]. apply b64_char_not_equals.
  - apply padding_cases.
Qed.

Lemma to_uint8_byte x : to_uint8 (Byte.to_N x) = x.
Proof.
  unfold to_uint8. pose proof (byte_bound x).
  rewrite N.mod_small by assumption. rewrite Byte.of_to_N. reflexivity.
Qed.

Lemma store_length i b arr : List.length (store i b arr) = List.length arr.
Proof.
  revert i. induction arr as [| x arr IH]; intros i; [reflexivity |].
  destruct i; cbn [store List.length]; [reflexivity | rewrite IH; reflexivity].
Qed.

Lemma skipn_store n b : forall (arr : list Byte.byte) x apost,
  skipn n arr = x :: apost ->
  skipn n (store n b arr) = b :: apost /\ skipn (S n) arr = apost.
Proof.
  induction n as [| n IH]; intros arr x apost H.
  - cbn [skipn] in H. subst. split; reflexivity.
  - destruct arr as [| y arr]; [discriminate H |].
    cbn [skipn] in H. cbn [store]. apply (IH arr x apost H).
Qed.

(** The loop fills the cells below [n] and leaves the others. *)
Lemma fill_down_spec n : forall bstr (arr : list Byte.byte),
  List.length arr = List.length bstr ->
  (n <= List.length bstr)%nat ->
  fill_down n bstr arr = List.map to_uint8 (firstn n bstr) ++ skipn n arr.
Proof.
  induction n as [| n IH]; intros bstr arr Hlen Hn; [reflexivity |].
  cbn [fill_down]. rewrite IH; [| rewrite store_length; exact Hlen | lia].
  assert (Hs : exists c post, skipn n bstr = c :: post).
  { destruct (skipn n bstr) as [| c post] eqn:E; [| eauto].
    apply (f_equal (@List.length N)) in E. rewrite length_skipn in E.
    cbn in E. lia. }
  destruct Hs as (c & post & Hs).
  assert (Ha : exists x apost, skipn n arr = x :: apost).
  { destruct (skipn n arr) as [| x apost] eqn:E; [| eauto].
    apply (f_equal (@List.length Byte.byte)) in E. rewrite length_skipn in E.
    cbn in E. lia. }
  destruct Ha as (x & apost & Ha).
  assert (Hnth : nth_error bstr n = Some c).
  { rewrite <- (firstn_skipn n bstr), Hs.
    rewrite nth_error_app2; rewrite length_firstn, Nat.min_l by lia; [| lia].
    rewrite Nat.sub_diag. reflexivity. }
  rewrite (nth_error_nth bstr n 0%N Hnth), (firstn_snoc c n bstr Hnth).
  rewrite map_app, <- app_assoc. f_equal.
  destruct (skipn_store n (to_uint8 c) arr x apost Ha) as [E1 E2].
  rewrite E1, E2. reflexivity.
Qed.

Lemma atob_inverts_base64 (bs : list Byte.byte) (mime : list N) :
  base64ToBlob (base64 bs) mime = Some (bs, mime).
Proof.
  unfold base64ToBlob. rewrite atob_base64.
  rewrite fill_down_spec.
  - rewrite firstn_all, skipn_all2 by (rewrite repeat_length; apply Nat.le_refl).
    rewrite app_nil_r, map_map.
    rewrite (map_ext _ (fun x => x) to_uint8_byte), map_id. reflexivity.
  - apply repeat_length.
  - apply Nat.le_refl.
Qed.


End Base64Facts.

(** ** Failures, forwarded text and origins *)

(** X10: a text field that is present but is a number, a boolean, an array
    or an object, and likewise a truthy image field of these kinds, ends the
    request with status 500 (the TypeError is caught) and no upstream call,
    not with a 400. *)
Theorem non_string_field_is_server_error (e : endpoint) (w : world) (req : request) :
  reaches_body e req ->
  (route_of e <> RExtractAndProcess ->
   not_a_string (text req) = true ->
   status (respond e w req) = 500 /\ external_calls (respond e w req) = [])
  /\ (route_of e = RExtractAndProcess ->
      not_a_string (image req) = true ->
      truthy (image req) = true ->
      status (respond e w req) = 500 /\ external_calls (respond e w req) = []).
Proof.
  intros Hb. split.
  - intros Hr Ht.
    destruct e as [r | r |]; try destruct r; cbn [reaches_body] in Hb;
      try (exfalso; apply Hr; reflexivity);
      destruct (text req) eqn:Etext; try discriminate Ht;
      unfold_handlers; try (rewrite Hb; change (jseqb POST OPTIONS) with false;
                            rewrite jseqb_refl);
      rewrite Etext; repeat case_step; split; reflexivity.
  - intros Hr Hi Htr.
    destruct e as [r | r |]; try destruct r; cbn [reaches_body] in Hb;
      try discriminate Hr;
      destruct (image req) eqn:Eimg; try discriminate Hi;
      unfold_handlers; try (rewrite Hb; change (jseqb POST OPTIONS) with false;
                            rewrite jseqb_refl);
      rewrite Eimg, Htr; repeat case_step; split; reflexivity.
Qed.

(** X12: when a call to the generation service raises, in any handler, the
    request ends with status 500 and an error field, and that call is the
    last upstream call made: nothing is forwarded after a failure. *)
Theorem generation_error_stops_pipeline
    (e : endpoint) (w : world) (req : request) m i err :
  In (Generate m i) (trace (respond e w req)) ->
  generateContent w m i = Raises err ->
  status (respond e w req) = 500
  /\ hd_error (external_calls (respond e w req)) = Some (Generate m i)
  /\ json_field "error" (respond e w req) <> None.
Proof.
  intros Hin Hgen. revert Hin.
  destruct e as [r | r |]; try destruct r;
    match goal with |- context [respond ?e _ _] => walk e w req end;
    intros Hin; in_trace Hin; same_call; try discriminate;
    (split; [reflexivity | split; [reflexivity | discriminate]]).
Qed.

(** X9: the generate-voice handlers send to the speech service only the
    sanitized form of the trimmed text field: never empty, at most 2000 code
    units, without markup characters. *)
Theorem speech_text_is_sanitized (e : endpoint) (w : world) (req : request) v t :
  route_of e = RGenerateVoice ->
  In (Synthesize v t) (trace (respond e w req)) ->
  exists s,
    text req = JStr s
    /\ t = sanitize (trim s)
    /\ t <> []
    /\ List.length t <= 2000
    /\ Forall (fun c => is_markup c = false) t.
Proof.
  intros Hr.
  destruct e as [r | r |]; try destruct r; try discriminate Hr;
    match goal with |- context [respond ?e _ _] => walk e w req end;
    intros Hin; in_trace Hin; same_call; try discriminate;
    (eexists; split; [reflexivity |]; split; [reflexivity |]; split;
     [ intros E; unfold sanitize in E;
       match goal with H : is_empty _ = false |- _ => rewrite E in H; discriminate H end
     | split; [apply sanitize_length | apply sanitizeInput_no_markup] ]).
Qed.

(** X14: in every handler other than the two unsanitized generate handlers,
    each narrative prompt sent upstream is one of the two templates around a
    text that holds no double quote (so it cannot close the quoted idea), no
    other markup character, and at most 2000 code units. *)
Theorem prompt_text_cannot_close_quote
    (e : endpoint) (w : world) (req : request) m p :
  e <> Function RGenerate -> e <> Legacy ->
  In (Generate m (Prompt p)) (trace (respond e w req)) ->
  exists idea,
    (p = story_prompt idea \/ p = image_story_prompt idea)
    /\ ~ In DQUOTE idea
    /\ Forall (fun c => is_markup c = false) idea
    /\ List.length idea <= 2000.
Proof.
  intros H1 H2 Hin.
  destruct (sanitizing_handlers_sanitize e w req m p H1 H2 Hin) as [raw Hp].
  exists (sanitize raw). split; [exact Hp |].
  pose proof (sanitizeInput_no_markup (JStr raw)) as Hm.
  split; [| split; [exact Hm | apply sanitize_length]].
  intros Hq. rewrite Forall_forall in Hm. specialize (Hm DQUOTE Hq). discriminate Hm.
Qed.

(** X11: when the audio stream emits an error, whatever chunks arrived
    before it, the request fails with status 500, the diagnostic Failed to
    read audio stream: followed by the message, and no audio in the body. *)
Theorem stream_error_discards_audio
    (e : endpoint) (w : world) (req : request) v t s err :
  synthesizes e = true ->
  In (Synthesize v t) (trace (respond e w req)) ->
  textToSpeech w v t = TtsReturns (Some s) ->
  closing s = Some err ->
  failed_with (MSG_READ_FAILED ++ message err) (respond e w req).
Proof.
  intros He Hin Hr Hc.
  pose proof (synthesis_outcome e w req v t He Hin) as Hout.
  rewrite Hr in Hout. cbn [tts_outcome] in Hout. rewrite Hc in Hout. exact Hout.
Qed.

Lemma includes_In l x : includes l x = true <-> In x l.
Proof.
  unfold includes. rewrite existsb_exists. split.
  - intros [y [Hy E]]. apply jseqb_eq in E. subst. exact Hy.
  - intros H. exists x. split; [exact H | apply jseqb_refl].
Qed.

Lemma function_allow_origin (r : route) (w : world) (req : request) :
  r <> RGenerate ->
  allow_origin (respond (Function r) w req) = echoed_origin w req.
Proof.
  intros Hr. destruct r; try contradiction;
    match goal with |- context [respond ?e _ _] => walk e w req end;
    unfold echoed_origin, allow_origin;
    repeat match goal with
           | H : origin req = _ |- _ => rewrite H; clear H
           | H : is_empty _ = _ |- _ => rewrite H; clear H
           | H : includes _ _ = _ |- _ => rewrite H; clear H
           end;
    reflexivity.
Qed.

Lemma generate_allow_origin (w : world) (req : request) :
  allow_origin (respond (Function RGenerate) w req) = Some (str "*").
Proof.
  match goal with |- context [respond ?e _ _] => walk e w req end; reflexivity.
Qed.

(** X13: the functions with the allow-list emit Access-Control-Allow-Origin
    exactly when the request has a non-empty Origin found in the list, and
    then echo it; the generate function always emits the wildcard; the
    server policy accepts a request exactly when it has no Origin, an empty
    one, or one in the list; and both localhost origins are always in the
    list, whatever FRONTEND_URL is. *)
Theorem origin_policies (w : world) :
  (forall r req v,
      r <> RGenerate ->
      (allow_origin (respond (Function r) w req) = Some v
       <-> origin req = Some v /\ v <> [] /\ In v (allowedOrigins w)))
  /\ (forall req, allow_origin (respond (Function RGenerate) w req) = Some (str "*"))
  /\ (forall o,
         cors_origin w o = CorsAllowed
         <-> o = None \/ o = Some [] \/ exists v, o = Some v /\ In v (allowedOrigins w))
  /\ In LOCAL_5173 (allowedOrigins w) /\ In LOCAL_3000 (allowedOrigins w).
Proof.
  split; [| split; [| split; [| split]]].
  - intros r req v Hr. rewrite (function_allow_origin r w req Hr).
    unfold echoed_origin. destruct (origin req) as [o |].
    + destruct (is_empty o) eqn:Ho; cbn [negb andb].
      * apply is_empty_nil in Ho. subst. split; [discriminate |].
        intros (E & Hne & _). injection E as <-. contradiction.
      * destruct (includes (allowedOrigins w) o) eqn:Hi.
        -- apply includes_In in Hi. split.
           ++ intros E. injection E as <-. repeat split; [| exact Hi].
              intros ->. discriminate Ho.
           ++ intros (E & _ & _). exact E.
        -- split; [discriminate |]. intros (E & _ & Hin). injection E as <-.
           apply includes_In in Hin. rewrite Hin in Hi. discriminate Hi.
    + split; [discriminate |]. intros (E & _). discriminate E.
  - apply generate_allow_origin.
  - intros o. unfold cors_origin. destruct o as [v |].
    + destruct (is_empty v) eqn:Hv; cbn [orb].
      * apply is_empty_nil in Hv. subst. split; auto.
      * destruct (includes (allowedOrigins w) v) eqn:Hi.
        -- apply includes_In in Hi. split; [| reflexivity].
           intros _. right. right. exists v. split; [reflexivity | exact Hi].
        -- split; [discriminate |].
           intros [E | [E | (v' & E & Hin)]]; try discriminate E.
           ++ injection E as ->. discriminate Hv.
           ++ injection E as <-. apply includes_In in Hin.
              rewrite Hin in Hi. discriminate Hi.
    + split; auto.
  - unfold allowedOrigins. apply in_or_app. right. left. reflexivity.
  - unfold allowedOrigins. apply in_or_app. right. right. left. reflexivity.
Qed.

Lemma audio_mime_fixed (e : endpoint) (w : world) (req : request) v t :
  synthesizes e = true ->
  In (Synthesize v t) (trace (respond e w req)) ->
  status (respond e w req) = 200 ->
  json_field "audioMime" (respond e w req) = Some AUDIO_MPEG.
Proof.
  intros He.
  destruct e as [r | r |]; try destruct r; try discriminate He; clear He;
    match goal with |- context [respond ?e _ _] => walk e w req end;
    intros Hin Hst; in_trace Hin; try discriminate Hst; reflexivity.
Qed.

(** X16: for every successful synthesis response, what the player decodes
    from the audioBase64 and audioMime fields is the concatenation of the
    chunks of the stream, typed audio/mpeg. *)
Theorem player_decodes_served_audio
    (e : endpoint) (w : world) (req : request) v t :
  synthesizes e = true ->
  In (Synthesize v t) (trace (respond e w req)) ->
  status (respond e w req) = 200 ->
  exists s a mime,
    textToSpeech w v t = TtsReturns (Some s)
    /\ json_field "audioBase64" (respond e w req) = Some a
    /\ json_field "audioMime" (respond e w req) = Some mime
    /\ base64ToBlob a mime = Some (List.concat (chunks_of s), AUDIO_MPEG).
Proof.
  intros He Hin Hst.
  pose proof (synthesis_outcome e w req v t He Hin) as Hout.
  pose proof (audio_mime_fixed e w req v t He Hin Hst) as Hmime.
  unfold tts_outcome, failed_with in Hout.
  destruct (textToSpeech w v t) as [err | [s |]];
    try (destruct Hout as [H500 _]; rewrite H500 in Hst; discriminate Hst).
  destruct (closing s) as [err |];
    try (destruct Hout as [H500 _]; rewrite H500 in Hst; discriminate Hst).
  destruct (Nat.eqb (List.length (chunks_of s)) 0);
    try (destruct Hout as [H500 _]; rewrite H500 in Hst; discriminate Hst).
  destruct Hout as [_ Haudio].
  exists s, (base64 (List.concat (chunks_of s))), AUDIO_MPEG.
  repeat split; try assumption. apply atob_inverts_base64.
Qed.

Lemma present_text_passes (e : endpoint) (w : world) (o : option (list N)) s :
  route_of e = RProcessText \/ route_of e = RGenerateVoice ->
  is_empty (trim s) = false ->
  json_field "error" (respond e w (posted o (JStr s) JUndefined))
  <> Some (required_message (route_of e)).
Proof.
  intros Hr Hs.
  destruct e as [r | r |]; try destruct r;
    try (destruct Hr as [Hr | Hr]; discriminate Hr); clear Hr;
    unfold_handlers; change (jseqb POST OPTIONS) with false;
    cbn [method text posted]; try rewrite jseqb_refl;
    unfold_handlers; rewrite Hs; repeat case_step;
    intros E; vm_compute in E; discriminate E.
Qed.

Lemma present_image_passes (e : endpoint) (w : world) (o : option (list N)) c i :
  route_of e = RExtractAndProcess ->
  json_field "error" (respond e w (posted o JUndefined (JStr (c :: i))))
  <> Some ERR_IMAGE_REQUIRED.
Proof.
  intros Hr.
  destruct e as [r | r |]; try destruct r; try discriminate Hr; clear Hr;
    unfold_handlers; change (jseqb POST OPTIONS) with false;
    cbn [method image posted truthy]; try rewrite jseqb_refl;
    unfold_handlers; repeat case_step;
    intros E; vm_compute in E; discriminate E.
Qed.

(** X17: the process button of the page never stays idle; with an image
    chosen it posts the image to extract-and-process whatever the text is;
    and a request it posts is never answered with the missing-field error of
    its route, by the functions or by the server. *)
Theorem page_requests_pass_presence_checks
    (imageDataUrl : option (list N)) (inputText : list N) :
  handleExtractAndProcess imageDataUrl inputText <> UiIdle
  /\ (has_value imageDataUrl = true ->
      exists i,
        imageDataUrl = Some i
        /\ handleExtractAndProcess imageDataUrl inputText
           = UiPost RExtractAndProcess JUndefined (JStr i))
  /\ (forall r t i,
         handleExtractAndProcess imageDataUrl inputText = UiPost r t i ->
         forall e w o,
           route_of e = r ->
           json_field "error" (respond e w (posted o t i))
           <> Some (required_message r)).
Proof.
  unfold handleExtractAndProcess.
  destruct imageDataUrl as [[| c img] |]; cbn [has_value negb andb];
    destruct (is_empty (trim inputText)) eqn:Ht; cbn [negb];
    (split; [discriminate |]); (split; [try discriminate; eauto |]);
    intros r t i E; try discriminate E;
    injection E as <- <- <-; intros e w o Hr.
  - rewrite <- Hr. apply present_text_passes; [left; exact Hr | exact Ht].
  - apply present_image_passes, Hr.
  - apply present_image_passes, Hr.
  - rewrite <- Hr. apply present_text_passes; [left; exact Hr | exact Ht].
Qed.

(** X18: the voice button alerts without a story and otherwise posts the
    non-empty story to generate-voice; the server accepts its presence when
    the story is not blank, and answers a whitespace-only story, which the
    page lets through, with the missing-text 400. *)
Theorem voice_button_posts_story (processedStory : option (list N)) :
  (has_value processedStory = false ->
   exists msg, handleGenerateVoice processedStory = UiAlert msg)
  /\ (forall r t i,
         handleGenerateVoice processedStory = UiPost r t i ->
         r = RGenerateVoice /\ i = JUndefined
         /\ exists s,
              processedStory = Some s /\ t = JStr s /\ s <> []
              /\ (forall e w o,
                     route_of e = RGenerateVoice ->
                     (trim s <> [] ->
                      json_field "error" (respond e w (posted o t i))
                      <> Some ERR_VOICE_REQUIRED)
                     /\ (reaches_body e (posted o t i) ->
                         trim s = [] ->
                         json_field "error" (respond e w (posted o t i))
                         = Some ERR_VOICE_REQUIRED))).
Proof.
  unfold handleGenerateVoice. split.
  - intros H. rewrite H. eexists. reflexivity.
  - intros r t i. destruct processedStory as [[| c s] |]; cbn [has_value negb];
      intros E; try discriminate E. injection E as <- <- <-.
    split; [reflexivity |]. split; [reflexivity |].
    exists (c :: s). repeat split; try discriminate.
    + intros Hne. change ERR_VOICE_REQUIRED with (required_message RGenerateVoice).
      rewrite <- H. apply present_text_passes; [right; exact H |].
      destruct (trim (c :: s)); [contradiction | reflexivity].
    + intros Hb Hnil.
      destruct (missing_text_rejected e w (posted o (JStr (c :: s)) JUndefined) Hb)
        as (_ & Hsent & _).
      * rewrite H. discriminate.
      * right. cbn [text posted blank]. rewrite Hnil. reflexivity.
      * unfold json_field. rewrite Hsent, H. reflexivity.
Qed.

(** X4: a clean text whose only whitespace is single plain spaces passes
    through the sanitizer unchanged. *)
Theorem clean_text_is_unchanged (s : list N) :
  already_clean s = true ->
  Forall (fun c => is_space c = true -> c = SP) s ->
  sanitize s = s.
Proof.
  intros Hc Hs. rewrite (sanitize_clean s Hc). clear Hc.
  induction Hs as [| c s Hsp Hs IH]; [reflexivity |].
  cbn [List.map]. rewrite IH. f_equal.
  unfold to_space. destruct (is_space c) eqn:E; [| reflexivity].
  symmetry. apply Hsp. reflexivity.
Qed.

Lemma clean_text_is_unchanged_witness :
  sanitize (str "a dragon who is afraid of fire") = str "a dragon who is afraid of fire".
Proof.
  apply clean_text_is_unchanged.
  - reflexivity.
  - apply Forall_forall. intros c Hc Hsp.
    repeat (destruct Hc as [<- | Hc]; [first [reflexivity | discriminate Hsp] |]).
    contradiction.
Defined.

Lemma inlineData_of_data_url_witness :
  inlineData (str "data:image/" ++ str "jpeg" ++ str ";base64," ++ str "/9j/4AAQ")
  = (str "/9j/4AAQ", str "image/" ++ str "jpeg").
Proof.
  apply inlineData_of_data_url.
  - discriminate.
  - repeat constructor.
Defined.

Lemma inlineData_fallbacks_witness :
  inlineData (str "data:application/pdf;base64,JVBERi0=")
  = (str "data:application/pdf;base64,JVBERi0=", str "image/png").
Proof.
  apply (proj1 (inlineData_fallbacks (str "data:application/pdf;base64,JVBERi0="))).
  reflexivity.
Defined.

Lemma upstream_calls_by_route_witness :
  reaches_body (Function RProcessText) (post (JStr (str "a cat")) JUndefined).
Proof.
  apply (proj2 (upstream_calls_by_route (Function RProcessText) (healthy [])
                  (post (JStr (str "a cat")) JUndefined))).
  vm_compute. discriminate.
Defined.

Lemma speech_text_is_sanitized_witness :
  exists s,
    text (post (JStr (str " <b>Hello</b> ")) JUndefined) = JStr s
    /\ str "bHello/b" = sanitize (trim s)
    /\ str "bHello/b" <> []
    /\ List.length (str "bHello/b") <= 2000
    /\ Forall (fun c => is_markup c = false) (str "bHello/b").
Proof.
  apply (speech_text_is_sanitized (Server RGenerateVoice) (healthy [])
           (post (JStr (str " <b>Hello</b> ")) JUndefined) DEFAULT_VOICE).
  - reflexivity.
  - vm_compute. left. reflexivity.
Defined.

Lemma non_string_field_is_server_error_witness :
  status (respond (Function RProcessText) (healthy [])
            (post (JNum 42) JUndefined)) = 500
  /\ external_calls (respond (Function RProcessText) (healthy [])
                       (post (JNum 42) JUndefined)) = [].
Proof.
  apply (proj1 (non_string_field_is_server_error (Function RProcessText) (healthy [])
                  (post (JNum 42) JUndefined) eq_refl)).
  - discriminate.
  - reflexivity.
Defined.

Lemma stream_error_discards_audio_witness :
  failed_with (MSG_READ_FAILED ++ message hang_up)
    (respond (Server RGenerateVoice) (speech (TtsReturns (Some broken_stream)))
       (post (JStr (str "hello")) JUndefined)).
Proof.
  apply (stream_error_discards_audio (Server RGenerateVoice)
           (speech (TtsReturns (Some broken_stream)))
           (post (JStr (str "hello")) JUndefined) DEFAULT_VOICE (str "hello")
           broken_stream hang_up).
  - reflexivity.
  - vm_compute. right. right. left. reflexivity.
  - reflexivity.
  - reflexivity.
Defined.

Lemma generation_error_stops_pipeline_witness :
  status (respond (Server RGenerate) (generation_down None)
            (post (JStr (str "a cat")) JUndefined)) = 500.
Proof.
  refine (proj1 (generation_error_stops_pipeline (Server RGenerate)
                   (generation_down None) (post (JStr (str "a cat")) JUndefined)
                   "gemini-2.0-flash" (Prompt (story_prompt (str "a cat")))
                   (upstream_error "API key not valid") _ eq_refl)).
  vm_compute. right. right. left. reflexivity.
Defined.

Lemma origin_policies_witness :
  allow_origin (respond (Function RProcessText) (healthy [])
                  (localhost_post (JStr (str "a cat")))) = Some LOCAL_5173.
Proof.
  apply (proj1 (origin_policies (healthy [])) RProcessText).
  - discriminate.
  - split; [reflexivity |]. split; [discriminate |]. left. reflexivity.
Defined.

Lemma prompt_text_cannot_close_quote_witness :
  exists idea,
    (story_prompt (str "say hi and stop") = story_prompt idea
     \/ story_prompt (str "say hi and stop") = image_story_prompt idea)
    /\ ~ In DQUOTE idea
    /\ Forall (fun c => is_markup c = false) idea
    /\ List.length idea <= 2000.
Proof.
  apply (prompt_text_cannot_close_quote (Server RProcessText) (healthy [])
           (post (JStr ([DQUOTE] ++ str "say hi" ++ [DQUOTE] ++ str " and stop")) JUndefined)
           "gemini-2.0-flash").
  - discriminate.
  - discriminate.
  - vm_compute. left. reflexivity.
Defined.

Lemma player_decodes_served_audio_witness :
  exists s a mime,
    textToSpeech (healthy []) DEFAULT_VOICE (str "hello") = TtsReturns (Some s)
    /\ json_field "audioBase64"
         (respond (Function RGenerateVoice) (healthy [])
            (post (JStr (str "hello")) JUndefined)) = Some a
    /\ json_field "audioMime"
         (respond (Function RGenerateVoice) (healthy [])
            (post (JStr (str "hello")) JUndefined)) = Some mime
    /\ base64ToBlob a mime = Some (List.concat (chunks_of s), AUDIO_MPEG).
Proof.
  apply (player_decodes_served_audio (Function RGenerateVoice) (healthy [])
           (post (JStr (str "hello")) JUndefined) DEFAULT_VOICE (str "hello")).
  - reflexivity.
  - vm_compute. left. reflexivity.
  - reflexivity.
Defined.

Lemma page_requests_pass_presence_checks_witness :
  handleExtractAndProcess None (str " a cat ")
  = UiPost RProcessText (JStr (str " a cat ")) JUndefined
  /\ json_field "error"
       (respond (Server RProcessText) (healthy [])
          (posted (Some LOCAL_5173) (JStr (str " a cat ")) JUndefined))
     <> Some (required_message RProcessText).
Proof.
  split; [reflexivity |].
  apply (proj2 (proj2 (page_requests_pass_presence_checks None (str " a cat ")))
           RProcessText (JStr (str " a cat ")) JUndefined eq_refl
           (Server RProcessText) (healthy []) (Some LOCAL_5173) eq_refl).
Defined.

Lemma voice_button_posts_story_witness :
  json_field "error"
    (respond (Server RGenerateVoice) (healthy [])
       (posted None (JStr [SP; SP]) JUndefined))
  = Some ERR_VOICE_REQUIRED.
Proof.
  destruct (proj2 (voice_button_posts_story (Some [SP; SP]))
              RGenerateVoice (JStr [SP; SP]) JUndefined eq_refl)
    as (_ & _ & s & Hs & _ & _ & H).
  injection Hs as <-.
  apply (proj2 (H (Server RGenerateVoice) (healthy []) None eq_refl) I).
  reflexivity.
Defined.

Lemma sanitized_whitespace_is_normal_witness :
  no_repeated_space (sanitizeInput (JStr (str "a   b" ++ [TAB; LF] ++ str "c"))) = true.
Proof.
  exact (proj2 (sanitized_whitespace_is_normal
                  (JStr (str "a   b" ++ [TAB; LF] ++ str "c")))).
Defined.
